(** * Arghonaut: the Argh! interpreter of [arghonaut/interpreter.py]

    A shallow embedding of the interpreter class [ArghInterpreter] and of the
    helpers of [arghonaut/common.py] it calls, followed by the properties of
    the execution engine.

    Python objects are modelled as follows.
    - An integer is a [Z]; a value that may be [None] is a [value].
    - A string is a list of Unicode code points ([pychar]); [ord] and [chr]
      are Python's.
    - A list is a Rocq list in the same order (the top of [stack] is its
      LAST element, as in the source); indexing follows Python, negative
      indices included.
    - A method is a computation in the monad [M]: it reads and updates the
      interpreter object and either returns or raises.  The object keeps the
      updates made before an exception was raised. *)

From Stdlib Require Import ZArith Bool Ascii String Lia.
From Stdlib Require DecimalString HexadecimalString.
From stdpp Require Import base tactics option list list_numbers.

Local Open Scope Z_scope.

(** ** Python values, exceptions and builtins *)

(** What a grid cell, a stack slot or a queued input may hold. *)
Inductive value : Type :=
| VNone
| VInt (i : Z).

Inductive exn : Type :=
| IndexError
| TypeError
| ValueError.

(** Result of a builtin that may raise. *)
Inductive result (A : Type) : Type :=
| Ok (a : A)
| Err (e : exn).
Arguments Ok {A} a.
Arguments Err {A} e.

(** [range(0x110000)], the domain of [chr]. *)
Definition in_chr_range (i : Z) : bool := (0 <=? i) && (i <=? 1114111).

(** A one-character Python string: a code point. *)
Record pychar : Type := PyChar {
  ord : Z;
  ord_range : in_chr_range ord = true
}.

Abbreviation pystr := (list pychar).

(** [chr(v)]: [TypeError] on [None], [ValueError] outside [range(0x110000)]
    (CPython before 3.13 raises [OverflowError] instead when the integer
    does not fit a C int; the runs below stay far from that). *)
Definition chr (v : value) : result pychar :=
  match v with
  | VNone => Err TypeError
  | VInt i =>
      match bool_dec (in_chr_range i) true with
      | left H => Ok (PyChar i H)
      | right _ => Err ValueError
      end
  end.

(** Every 8-bit character code is in the domain of [chr]. *)
Definition ascii_in_chr_range (a : ascii) :
  in_chr_range (Z.of_N (N_of_ascii a)) = true.
Proof. destruct a as [[] [] [] [] [] [] [] []]; reflexivity. Defined.

(** A character literal of the source. *)
Definition lit (a : ascii) : pychar :=
  PyChar (Z.of_N (N_of_ascii a)) (ascii_in_chr_range a).

(** A string literal of the source. *)
Definition py (s : string) : pystr := lit <$> list_ascii_of_string s.

(** [a == b] on values; never raises. *)
Definition py_eq (a b : value) : bool :=
  match a, b with
  | VNone, VNone => true
  | VInt i, VInt j => i =? j
  | _, _ => false
  end.

(** [a < b]: ordering [None] is a [TypeError]. *)
Definition py_lt (a b : value) : result bool :=
  match a, b with
  | VInt i, VInt j => Ok (i <? j)
  | _, _ => Err TypeError
  end.

(** [a + b] and [a - b]. *)
Definition py_add (a b : value) : result value :=
  match a, b with
  | VInt i, VInt j => Ok (VInt (i + j))
  | _, _ => Err TypeError
  end.

Definition py_sub (a b : value) : result value :=
  match a, b with
  | VInt i, VInt j => Ok (VInt (i - j))
  | _, _ => Err TypeError
  end.

(** [len(l)]. *)
Definition len {A} (l : list A) : Z := Z.of_nat (length l).

(** The position [l[i]] refers to: a negative index counts from the end. *)
Definition py_pos {A} (l : list A) (i : Z) : option nat :=
  let j := if i <? 0 then i + len l else i in
  if (0 <=? j) && (j <? len l) then Some (Z.to_nat j) else None.

(** [l[i]]. *)
Definition py_index {A} (l : list A) (i : Z) : result A :=
  match py_pos l i ≫= (l !!.) with
  | Some a => Ok a
  | None => Err IndexError
  end.

(** [l[i] = a], giving the updated list. *)
Definition py_setitem {A} (l : list A) (i : Z) (a : A) : result (list A) :=
  match py_pos l i with
  | Some n => Ok (<[n := a]> l)
  | None => Err IndexError
  end.

(** [l.pop()], giving the popped element and the rest. *)
Definition py_pop {A} (l : list A) : result (A * list A) :=
  match last l with
  | Some a => Ok (a, removelast l)
  | None => Err IndexError
  end.

(** ** [common.py] *)

Definition EOT : Z := 4.

(** [is_chr(char)]: only [ValueError] is caught. *)
Definition is_chr (char : value) : result bool :=
  match chr char with
  | Ok _ => Ok true
  | Err ValueError => Ok false
  | Err e => Err e
  end.

(** [is_printable(char, long)]. *)
Definition is_printable (char : value) (long : bool) : result bool :=
  if long && py_eq char (VInt 32) then Ok false
  else
    match char with
    | VInt c => Ok ((32 <=? c) && (c <=? 126))
    | VNone => Err TypeError
    end.

(** [str(c)] and [hex(c)] for an integer. *)
Definition str (c : Z) : pystr :=
  py (DecimalString.NilZero.string_of_int (Z.to_int c)).

Definition hex (c : Z) : pystr :=
  (if c <? 0 then py "-" else []) ++ py "0x" ++
  py (HexadecimalString.NilZero.string_of_uint (N.to_hex_uint (Z.abs_N c))).

(** [to_printable(char, long)].  The test [0 <= char <= 9] comes first, as
    in the source, so a tab is rendered by its digit. *)
Definition to_printable (char : value) (long : bool) : result pystr :=
  match is_printable char false with
  | Err e => Err e
  | Ok true =>
      match chr char with
      | Ok c => Ok [c]
      | Err e => Err e
      end
  | Ok false =>
      match char with
      | VNone => Err TypeError
      | VInt c =>
          let escaped (escape : pystr) : pystr :=
            if long then py "\" ++ escape else escape in
          if (0 <=? c) && (c <=? 9) then Ok (escaped (str c))
          else if c =? 10 then Ok (escaped (py "n"))
          else if c =? 13 then Ok (escaped (py "r"))
          else if c =? 9 then Ok (escaped (py "t"))
          else if c =? EOT then Ok (if long then py "EOF" else py "E")
          else if c <? 0 then Ok (if long then str c else py "-")
          else Ok (if long then hex c else py "?")
      end
  end.

(** ** The interpreter object *)

(** Maximum columns. *)
Definition COLUMNS : Z := 80.

(** The attributes of an [ArghInterpreter].  [sys_stdout] is the process's
    standard output, which [_print] writes to in batch mode. *)
Record State : Type := mkState {
  code : list (list value);
  x : Z;
  y : Z;
  dx : Z;
  dy : Z;
  stack : list value;
  stdout : pystr;
  stdin : list value;
  needs_input : bool;
  error : option pystr;
  sys_stdout : pystr
}.

Definition with_code (v : list (list value)) (s : State) : State :=
  mkState v (x s) (y s) (dx s) (dy s) (stack s) (stdout s) (stdin s)
    (needs_input s) (error s) (sys_stdout s).
Definition with_x (v : Z) (s : State) : State :=
  mkState (code s) v (y s) (dx s) (dy s) (stack s) (stdout s) (stdin s)
    (needs_input s) (error s) (sys_stdout s).
Definition with_y (v : Z) (s : State) : State :=
  mkState (code s) (x s) v (dx s) (dy s) (stack s) (stdout s) (stdin s)
    (needs_input s) (error s) (sys_stdout s).
Definition with_dx (v : Z) (s : State) : State :=
  mkState (code s) (x s) (y s) v (dy s) (stack s) (stdout s) (stdin s)
    (needs_input s) (error s) (sys_stdout s).
Definition with_dy (v : Z) (s : State) : State :=
  mkState (code s) (x s) (y s) (dx s) v (stack s) (stdout s) (stdin s)
    (needs_input s) (error s) (sys_stdout s).
Definition with_stack (v : list value) (s : State) : State :=
  mkState (code s) (x s) (y s) (dx s) (dy s) v (stdout s) (stdin s)
    (needs_input s) (error s) (sys_stdout s).
Definition with_stdout (v : pystr) (s : State) : State :=
  mkState (code s) (x s) (y s) (dx s) (dy s) (stack s) v (stdin s)
    (needs_input s) (error s) (sys_stdout s).
Definition with_stdin (v : list value) (s : State) : State :=
  mkState (code s) (x s) (y s) (dx s) (dy s) (stack s) (stdout s) v
    (needs_input s) (error s) (sys_stdout s).
Definition with_needs_input (v : bool) (s : State) : State :=
  mkState (code s) (x s) (y s) (dx s) (dy s) (stack s) (stdout s) (stdin s)
    v (error s) (sys_stdout s).
Definition with_error (v : option pystr) (s : State) : State :=
  mkState (code s) (x s) (y s) (dx s) (dy s) (stack s) (stdout s) (stdin s)
    (needs_input s) v (sys_stdout s).
Definition with_sys_stdout (v : pystr) (s : State) : State :=
  mkState (code s) (x s) (y s) (dx s) (dy s) (stack s) (stdout s) (stdin s)
    (needs_input s) (error s) v.

(** How a method call ends: it returns [a], it raises [e], or ([Timeout]) the
    model's budget for a [while] loop ran out.  Each carries the object as
    the call left it. *)
Inductive outcome (A : Type) : Type :=
| Ret (a : A) (s : State)
| Raise (e : exn) (s : State)
| Timeout (s : State).
Arguments Ret {A} a s.
Arguments Raise {A} e s.
Arguments Timeout {A} s.

Definition final {A} (o : outcome A) : State :=
  match o with
  | Ret _ s | Raise _ s | Timeout s => s
  end.

Definition M (A : Type) : Type := State → outcome A.

Definition ret {A} (a : A) : M A := λ s, Ret a s.

Definition bind {A B} (m : M A) (f : A → M B) : M B := λ s,
  match m s with
  | Ret a s' => f a s'
  | Raise e s' => Raise e s'
  | Timeout s' => Timeout s'
  end.

Declare Scope M_scope.
Delimit Scope M_scope with M.
Notation "x ← m ; k" := (bind m (λ x, k))
  (at level 20, m at level 100, k at level 200, only parsing) : M_scope.
Notation "m ;; k" := (bind m (λ _, k))
  (at level 100, k at level 200, only parsing, right associativity) : M_scope.
Local Open Scope M_scope.

(** Read an attribute; assign attributes; run a builtin. *)
Definition gets {A} (f : State → A) : M A := λ s, Ret (f s) s.
Definition modify (f : State → State) : M unit := λ s, Ret tt (f s).
Definition lift {A} (r : result A) : M A := λ s,
  match r with
  | Ok a => Ret a s
  | Err e => Raise e s
  end.
Definition timeout {A} : M A := λ s, Timeout s.

(** Truth value of [self.error]: [None] and the empty string are false. *)
Definition truthy (e : option pystr) : bool :=
  match e with
  | Some (_ :: _) => true
  | _ => false
  end.

Definition set_error (msg : pystr) : M unit := modify (with_error (Some msg)).

Arguments lit a%_char.
Arguments py s%_string.

(** [c == "a"] for a one-character string [c]. *)
Definition eqc (c : pychar) (a : ascii) : bool := ord c =? ord (lit a).
Arguments eqc c a%_char.

(** Truth value of a list: non-empty. *)
Definition nonempty {A} (l : list A) : bool :=
  match l with
  | [] => false
  | _ :: _ => true
  end.

(** ** [ArghInterpreter] *)

(** One row of [self.code] as [__init__] builds it: the codes of the line,
    cut or padded with spaces to [COLUMNS] cells. *)
Definition init_row (line : pystr) : list value :=
  (λ i : nat,
     match line !! i with
     | Some c => VInt (ord c)
     | None => VInt (ord (lit " "))
     end) <$> seq 0 (Z.to_nat COLUMNS).

(** [ArghInterpreter(code)]. *)
Definition init (lines : list pystr) : State :=
  {| code := init_row <$> lines;
     x := 0; y := 0; dx := 0; dy := 0;
     stack := []; stdout := []; stdin := [];
     needs_input := false; error := None; sys_stdout := [] |}.

(** [reset()]: everything but [code] (and the process's output). *)
Definition reset : M unit :=
  modify (λ s,
    {| code := code s;
       x := 0; y := 0; dx := 0; dy := 0;
       stack := []; stdout := []; stdin := [];
       needs_input := false; error := None; sys_stdout := sys_stdout s |}).

(** Property [instruction]: [self.code[self.y][self.x]]. *)
Definition instruction : M value :=
  rows ← gets code;
  cy ← gets y;
  row ← lift (py_index rows cy);
  cx ← gets x;
  lift (py_index row cx).

(** Property [done]. *)
Definition done : M bool :=
  i ← instruction;
  ret (py_eq i (VInt (ord (lit "q")))).

(** Property [blocked]: [self.done or self.error or self.needs_input], as a
    truth value. *)
Definition blocked : M bool :=
  d ← done;
  if d then ret true
  else
    e ← gets error;
    if truthy e then ret true else gets needs_input.

(** [is_valid(x, y)]. *)
Definition is_valid (s : State) (cx cy : Z) : bool :=
  (0 <=? cy) && (cy <? len (code s)) &&
  match code s !! Z.to_nat cy with
  | Some row => (0 <=? cx) && (cx <? len row)
  | None => false
  end.

(** [get(x, y)]. *)
Definition get (s : State) (cx cy : Z) : value :=
  if is_valid s cx cy
  then default VNone (code s !! Z.to_nat cy ≫= (.!! Z.to_nat cx))
  else VNone.

Definition _get_above : M value := gets (λ s, get s (x s) (y s - 1)).
Definition _get_below : M value := gets (λ s, get s (x s) (y s + 1)).

(** [put(symbol, x, y)]. *)
Definition put (symbol : value) (cx cy : Z) : M unit :=
  modify (λ s,
    if is_valid s cx cy
    then with_code
           (alter (<[Z.to_nat cx := symbol]>) (Z.to_nat cy) (code s)) s
    else s).

Definition _put_above (symbol : value) : M unit :=
  cx ← gets x; cy ← gets y; put symbol cx (cy - 1).
Definition _put_below (symbol : value) : M unit :=
  cx ← gets x; cy ← gets y; put symbol cx (cy + 1).

(** [_move()]. *)
Definition _move : M bool :=
  ddx ← gets dx;
  ddy ← gets dy;
  if (ddx =? 0) && (ddy =? 0) then
    set_error (py "can't move; no direction specified");;
    ret false
  else
    ok ← gets (λ s, is_valid s (x s + dx s) (y s + dy s));
    if ok then
      modify (λ s, with_x (x s + dx s) s);;
      modify (λ s, with_y (y s + dy s) s);;
      ret true
    else
      set_error (py "moved out of bounds");;
      ret false.

Definition underflow : pystr := py "tried to pop from an empty stack".

(** [self.stack[-1]], [self.stack.pop()], [self.stack.append(v)]. *)
Definition stack_top : M value :=
  st ← gets stack; lift (py_index st (-1)).
Definition pop : M value :=
  st ← gets stack;
  r ← lift (py_pop st);
  modify (with_stack r.2);;
  ret r.1.
Definition push (v : value) : M unit :=
  modify (λ s, with_stack (stack s ++ [v]) s).

(** The [while] loop of [_jump]; [budget] bounds the number of times its
    condition is evaluated. *)
Fixpoint jump_scan (budget : nat) : M unit :=
  match budget with
  | O => timeout
  | S budget' =>
      i ← instruction;
      top ← stack_top;
      if negb (py_eq i top) then
        ok ← _move;
        if negb ok then set_error (py "jumped out of bounds")
        else jump_scan budget'
      else ret tt
  end.

(** A budget no scan exhausts (see [jump_with_budget]): one more than the
    larger dimension of the grid. *)
Definition jump_budget (s : State) : nat :=
  S (length (code s) `max` max_list (length <$> code s)).

(** [_jump()]; [jump_with] is its body, for a given budget of the loop. *)
Definition jump_with (budget : nat) : M unit :=
  st ← gets stack;
  if negb (nonempty st) then set_error underflow
  else
    ok ← _move;
    if negb ok then set_error (py "jumped out of bounds")
    else jump_scan budget.

Definition _jump : M unit :=
  budget ← gets jump_budget; jump_with budget.

(** [_print(char, batch)].  In batch mode the character also goes to the
    process's standard output, taken here to accept every character. *)
Definition _print (char : value) (batch : bool) : M unit :=
  ok ← lift (is_chr char);
  if ok then
    c ← lift (chr char);
    modify (λ s, with_stdout (stdout s ++ [c]) s);;
    if batch then modify (λ s, with_sys_stdout (sys_stdout s ++ [c]) s)
    else ret tt
  else
    t ← lift (to_printable char false);
    set_error (py "tried to print unprintable character: " ++ t).

(** [input_char(char)] and [input_string(string)]. *)
Definition input_char (char : value) : M unit :=
  modify (λ s, with_stdin (stdin s ++ [char]) s);;
  modify (with_needs_input false).

Fixpoint input_string (string : pystr) : M unit :=
  match string with
  | [] => ret tt
  | char :: rest => input_char (VInt (ord char));; input_string rest
  end.

(** [_delete()], [_duplicate()], [_add(addend)], [_subtract(subtrahend)]. *)
Definition _delete : M unit :=
  st ← gets stack;
  if nonempty st then pop;; ret tt
  else set_error underflow.

Definition _duplicate : M unit :=
  st ← gets stack;
  if nonempty st then top ← stack_top; push top
  else set_error underflow.

Definition _add (addend : value) : M unit :=
  st ← gets stack;
  if nonempty st then
    top ← stack_top;
    r ← lift (py_add top addend);
    st' ← lift (py_setitem st (-1) r);
    modify (with_stack st')
  else set_error underflow.

Definition _subtract (subtrahend : value) : M unit :=
  st ← gets stack;
  if nonempty st then
    top ← stack_top;
    r ← lift (py_sub top subtrahend);
    st' ← lift (py_setitem st (-1) r);
    modify (with_stack st')
  else set_error underflow.

(** [_rotate(clockwise)]. *)
Definition _rotate (clockwise : bool) : M unit :=
  swap ← gets dx;
  modify (λ s, with_dx (dy s) s);;
  modify (with_dy swap);;
  if clockwise then modify (λ s, with_dx (- dx s) s)
  else modify (λ s, with_dy (- dy s) s).

(** [self.dx, self.dy = a, b]. *)
Definition set_direction (a b : Z) : M unit :=
  modify (with_dx a);; modify (with_dy b).

(** The chain of [if]/[elif] of [step], on the instruction as a character. *)
Definition dispatch (batch : bool) (instruction : pychar) : M unit :=
  if eqc instruction "h" then set_direction (-1) 0
  else if eqc instruction "l" then set_direction 1 0
  else if eqc instruction "k" then set_direction 0 (-1)
  else if eqc instruction "j" then set_direction 0 1
  else if eqc instruction "H" then set_direction (-1) 0;; _jump
  else if eqc instruction "L" then set_direction 1 0;; _jump
  else if eqc instruction "K" then set_direction 0 (-1);; _jump
  else if eqc instruction "J" then set_direction 0 1;; _jump
  else if eqc instruction "P" then v ← _get_above; _print v batch
  else if eqc instruction "p" then v ← _get_below; _print v batch
  else if eqc instruction "G" then
    q ← gets stdin;
    match q with
    | v :: q' => modify (with_stdin q');; _put_above v
    | [] => modify (with_needs_input true)
    end
  else if eqc instruction "g" then
    q ← gets stdin;
    match q with
    | v :: q' => modify (with_stdin q');; _put_below v
    | [] => modify (with_needs_input true)
    end
  else if eqc instruction "D" then _delete
  else if eqc instruction "d" then _duplicate
  else if eqc instruction "E" then _put_above (VInt EOT)
  else if eqc instruction "e" then _put_below (VInt EOT)
  else if eqc instruction "F" then
    st ← gets stack;
    if nonempty st then v ← pop; _put_above v
    else set_error underflow
  else if eqc instruction "f" then
    st ← gets stack;
    if nonempty st then v ← pop; _put_below v
    else set_error underflow
  else if eqc instruction "A" then v ← _get_above; _add v
  else if eqc instruction "a" then v ← _get_below; _add v
  else if eqc instruction "R" then v ← _get_above; _subtract v
  else if eqc instruction "r" then v ← _get_below; _subtract v
  else if eqc instruction "S" then v ← _get_above; push v
  else if eqc instruction "s" then v ← _get_below; push v
  else if eqc instruction "X" then
    st ← gets stack;
    if nonempty st then
      top ← stack_top;
      neg ← lift (py_lt top (VInt 0));
      if neg then _rotate false else ret tt
    else set_error underflow
  else if eqc instruction "x" then
    st ← gets stack;
    if nonempty st then
      top ← stack_top;
      pos ← lift (py_lt (VInt 0) top);
      if pos then _rotate true else ret tt
    else set_error underflow
  else
    hashbang ← gets (λ s,
      eqc instruction "#" && (x s =? 0) && (y s =? 0)
      && py_eq (get s 1 0) (VInt (ord (lit "!"))));
    if hashbang then set_direction 0 1
    else if negb (eqc instruction "q") then
      set_error (py "invalid instruction: " ++ [instruction])
    else ret tt.

(** [step(batch)]. *)
Definition step (batch : bool) : M unit :=
  b ← blocked;
  if b then ret tt
  else
    instruction ← instruction;
    printable ← lift (is_printable instruction false);
    (if negb printable then
       t ← lift (to_printable instruction false);
       set_error (py "invalid instruction: " ++ t)
     else ret tt);;
    instruction ← lift (chr instruction);
    dispatch batch instruction;;
    b ← blocked;
    if negb b then _move;; ret tt
    else ret tt.

(** [new_line()]. *)
Definition new_line : M unit :=
  modify (λ s,
    with_code
      (code s ++ [replicate (Z.to_nat COLUMNS) (VInt (ord (lit " ")))]) s).

(** [code_to_string()]: the rows as strings; [chr] may raise. *)
Fixpoint row_to_string (row : list value) : result pystr :=
  match row with
  | [] => Ok []
  | v :: row' =>
      match chr v with
      | Ok c =>
          match row_to_string row' with
          | Ok r => Ok (c :: r)
          | Err e => Err e
          end
      | Err e => Err e
      end
  end.

Fixpoint rows_to_strings (rows : list (list value)) : result (list pystr) :=
  match rows with
  | [] => Ok []
  | row :: rows' =>
      match row_to_string row with
      | Ok r =>
          match rows_to_strings rows' with
          | Ok rs => Ok (r :: rs)
          | Err e => Err e
          end
      | Err e => Err e
      end
  end.

Definition code_to_string : M (list pystr) :=
  rows ← gets code; lift (rows_to_strings rows).

(** ** Sample runs *)

(** The object after [n] calls of [step()], whatever their outcomes. *)
Definition run (n : nat) (s : State) : State :=
  Nat.iter n (λ s, final (step false s)) s.

(** The program [j !] / [lSRj h] / [   lFk]: it computes [32 - 33], stores
    the result in the cell at column 4 of row 1 and walks onto that cell. *)
Definition prog_neg : list pystr :=
  [py "j !"; py "lSRj h"; py "   lFk"].

(** ** Vocabulary of the properties *)

(** The cell under the instruction pointer, as [instruction] reads it. *)
Definition cursor_cell (s : State) : result value :=
  match py_index (code s) (y s) with
  | Ok row => py_index row (x s)
  | Err e => Err e
  end.

(** The value of [blocked], as a function of the object. *)
Definition is_blocked (s : State) : result bool :=
  match cursor_cell s with
  | Ok v =>
      Ok (py_eq v (VInt (ord (lit "q"))) || truthy (error s) || needs_input s)
  | Err e => Err e
  end.

(** The last statement of [step]: move unless blocked. *)
Definition advance : M unit :=
  b ← blocked;
  if negb b then _move;; ret tt
  else ret tt.

(** The objects a driver can obtain: it constructs the interpreter and then
    calls [step], [input_char] and [input_string]; a call that raised leaves
    the object as it was at the exception. *)
Inductive reachable : State → Prop :=
| reach_init lines : reachable (init lines)
| reach_step batch s : reachable s → reachable (final (step batch s))
| reach_input_char char s :
    reachable s → reachable (final (input_char char s))
| reach_input_string string s :
    reachable s → reachable (final (input_string string s)).

(** Every row has [COLUMNS] cells and, unless the grid has no row, the
    instruction pointer is on a cell of the grid. *)
Definition well_formed (s : State) : Prop :=
  Forall (λ row, len row = COLUMNS) (code s) ∧
  (code s ≠ [] → is_valid s (x s) (y s) = true).

(** A method keeps [P] when the object satisfies [P] after the call, however
    the call ends, if it did before. *)
Definition keeps {A} (P : State → Prop) (m : M A) : Prop :=
  ∀ s, P s → P (final (m s)).

(** A method finishes when no call of it exhausts a loop budget. *)
Definition finishes {A} (m : M A) : Prop := ∀ s s', m s ≠ Timeout s'.

(** The instructions that pop or read the top of the stack. *)
Definition stack_instructions : list ascii :=
  ["D"; "F"; "f"; "d"; "A"; "a"; "R"; "r"; "X"; "x"; "H"; "L"; "K"; "J"]%char.

Definition jump_instructions : list ascii := ["H"; "L"; "K"; "J"]%char.

(** The scenario of a lone [G]: a step, an input, a second step. *)
Definition G_blocked : State := final (step false (init [py "G"])).
Definition G_fed (char : value) : State := final (input_char char G_blocked).
Definition G_resumed (char : value) : outcome unit :=
  step false (G_fed char).

(** The scenario as the specification tells it, for the supplied [char]:
    the first step blocks on input without moving, the input clears
    [needs_input], and the second step returns having left the grid as it
    was and having moved the instruction pointer. *)
Definition G_scenario_advances (char : value) : Prop :=
  needs_input G_blocked = true ∧
  (x G_blocked, y G_blocked) = (0, 0) ∧
  needs_input (G_fed char) = false ∧
  ∃ s', G_resumed char = Ret tt s' ∧
        code s' = code (G_fed char) ∧
        (x s', y s') ≠ (x (G_fed char), y (G_fed char)).

(** A source line cut or padded with spaces to [COLUMNS] characters. *)
Definition padded (line : pystr) : pystr :=
  (λ i : nat, default (lit " ") (line !! i)) <$> seq 0 (Z.to_nat COLUMNS).

(** The widest row of the grid, and how many more times the loop of
    [_jump] can evaluate its condition: the distance from the pointer to the
    edge of the grid it is heading for. *)
Definition widest (s : State) : Z := Z.of_nat (max_list (length <$> code s)).

Definition remaining (s : State) : nat :=
  if 0 <? dx s then Z.to_nat (widest s - x s)
  else if dx s <? 0 then Z.to_nat (x s + 1)
  else if 0 <? dy s then Z.to_nat (len (code s) - y s)
  else Z.to_nat (y s + 1).

(** A call of a public method, by a driver or by an editor. *)
Inductive call : Type :=
| CallStep (batch : bool)
| CallInputChar (char : value)
| CallInputString (string : pystr)
| CallReset
| CallPut (symbol : value) (cx cy : Z)
| CallNewLine.

Definition perform (c : call) : M unit :=
  match c with
  | CallStep batch => step batch
  | CallInputChar char => input_char char
  | CallInputString string => input_string string
  | CallReset => reset
  | CallPut symbol cx cy => put symbol cx cy
  | CallNewLine => new_line
  end.

(** The object after a sequence of calls, whatever their outcomes. *)
Definition after (calls : list call) (s : State) : State :=
  foldl (λ s c, final (perform c s)) s calls.

(** The grid is well formed and, while it has no row, the pointer is still
    at the origin. *)
Definition sound (s : State) : Prop :=
  well_formed s ∧ (code s = [] → x s = 0 ∧ y s = 0).

(** The direction is one of (0,0), (-1,0), (1,0), (0,-1), (0,1). *)
Definition unit_direction (s : State) : Prop :=
  Z.abs (dx s) + Z.abs (dy s) ≤ 1.


(** The direction instructions and the direction each one sets. *)
Definition direction_instructions : list (ascii * (Z * Z)) :=
  [("h", (-1, 0)); ("l", (1, 0)); ("k", (0, -1)); ("j", (0, 1))]%char.

(** The instruction alphabet of [step]. *)
Definition alphabet : list ascii :=
  list_ascii_of_string "hlkjHLKJPpGgDdEeFfAaRrSsXx#q".

(** A pair of instructions acting on the cell above and on the cell below
    the pointer, each with the row offset of its cell. *)
Definition above_below (up down : ascii) : list (ascii * Z) :=
  [(up, -1); (down, 1)].


(** The arithmetic instructions: the row offset of the operand cell and
    the operation applied to the top of the stack and that cell. *)
Definition arithmetic_instructions : list (ascii * (Z * (Z → Z → Z))) :=
  [("A", (-1, Z.add)); ("a", (1, Z.add));
   ("R", (-1, Z.sub)); ("r", (1, Z.sub))]%char.

(** A cell that [chr] accepts: an integer in [range(0x110000)]. *)
Definition chr_able (v : value) : bool :=
  match v with
  | VInt i => in_chr_range i
  | VNone => false
  end.

(** The calls a driver makes to run a program. *)
Definition driver_call (c : call) : bool :=
  match c with
  | CallStep _ | CallInputChar _ | CallInputString _ => true
  | _ => false
  end.

(** The codes of the characters of a string. *)
Definition ords (r : pystr) : list value := (VInt ∘ ord) <$> r.

(** The jump instructions and the direction each one sets. *)
Definition jump_directions : list (ascii * (Z * Z)) :=
  [("H", (-1, 0)); ("L", (1, 0)); ("K", (0, -1)); ("J", (0, 1))]%char.

(** The cell [j] moves away from the pointer in direction [d]. *)
Definition cell_ahead (s : State) (d : Z * Z) (j : Z) : value :=
  get s (x s + j * d.1) (y s + j * d.2).

Definition valid_ahead (s : State) (d : Z * Z) (j : Z) : bool :=
  is_valid s (x s + j * d.1) (y s + j * d.2).

(** A method leads from [P] to [Q] when the object satisfies [Q] after the
    call, however the call ends, if it satisfied [P] before. *)
Definition leads {A} (P Q : State → Prop) (m : M A) : Prop :=
  ∀ s, P s → Q (final (m s)).

(** * Properties *)

(** ** The monad *)

Lemma final_bind {A B} (m : M A) (f : A → M B) s :
  final (bind m f s) =
  match m s with
  | Ret a s' => final (f a s')
  | Raise _ s' | Timeout s' => s'
  end.
Proof. unfold bind. by destruct (m s). Qed.

(** Unfold the plumbing of the monad, nothing else. *)
Ltac msimpl :=
  cbv beta iota delta [bind ret gets modify lift set_error set_direction].

(** Split a conjunction of closed facts and evaluate each. *)
Ltac evaluate :=
  repeat match goal with |- _ ∧ _ => split end;
  vm_compute; reflexivity.

(** ** Python lists *)

Lemma nonempty_snoc {A} (l : list A) a : nonempty (l ++ [a]) = true.
Proof. by destruct l. Qed.

Lemma py_pos_last {A} (l : list A) a :
  py_pos (l ++ [a]) (-1) = Some (length l).
Proof.
  unfold py_pos, len. rewrite length_app. simpl.
  replace (-1 <? 0) with true by done.
  rewrite (proj2 (andb_true_iff _ _)); [f_equal; lia|].
  split; [apply Z.leb_le | apply Z.ltb_lt]; lia.
Qed.

Lemma py_index_last {A} (l : list A) a : py_index (l ++ [a]) (-1) = Ok a.
Proof.
  unfold py_index. rewrite py_pos_last. simpl.
  by rewrite list_lookup_middle.
Qed.

Lemma py_index_Ok {A} (l : list A) i a :
  py_index l i = Ok a →
  ∃ n, py_pos l i = Some n ∧ l !! n = Some a.
Proof.
  unfold py_index. destruct (py_pos l i) as [n|]; simpl; [|done].
  destruct (l !! n) eqn:E; [|done]. intros [= ->]. eauto.
Qed.

Lemma py_index_nil {A} i : py_index (@nil A) i = Err IndexError.
Proof.
  unfold py_index, py_pos, len.
  destruct (_ && _) eqn:E; [|reflexivity].
  apply andb_true_iff in E as [E1 E2].
  apply Z.leb_le in E1. apply Z.ltb_lt in E2.
  destruct (i <? 0); simpl in E1, E2; lia.
Qed.

Lemma py_eq_true a b : py_eq a b = true ↔ a = b.
Proof.
  destruct a, b; simpl; try (split; congruence).
  rewrite Z.eqb_eq. split; congruence.
Qed.

(** ** Reading the cell under the pointer *)

Lemma instruction_spec s : instruction s = lift (cursor_cell s) s.
Proof.
  unfold instruction, cursor_cell. msimpl.
  destruct (py_index (code s) (y s)); [|done]. by destruct (py_index _ _).
Qed.

Lemma blocked_spec s : blocked s = lift (is_blocked s) s.
Proof.
  unfold blocked, done, is_blocked, bind at 1 2.
  rewrite instruction_spec. unfold lift, ret, gets.
  destruct (cursor_cell s) as [v|]; [|done].
  destruct (py_eq _ _); [done|]. unfold bind. simpl.
  by destruct (truthy _).
Qed.

Lemma instruction_Ret s v s' :
  instruction s = Ret v s' ↔ cursor_cell s = Ok v ∧ s' = s.
Proof.
  rewrite instruction_spec. unfold lift.
  destruct (cursor_cell s); split; intros H; try done.
  - by injection H as -> ->.
  - by destruct H as [[= ->] ->].
  - by destruct H.
Qed.

Lemma blocked_Ret s b s' :
  blocked s = Ret b s' ↔ is_blocked s = Ok b ∧ s' = s.
Proof.
  rewrite blocked_spec. unfold lift.
  destruct (is_blocked s); split; intros H; try done.
  - by injection H as -> ->.
  - by destruct H as [[= ->] ->].
  - by destruct H.
Qed.

(** [_move] never raises; what it does in each of its three cases. *)
Lemma _move_eq s :
  _move s =
  if (dx s =? 0) && (dy s =? 0) then
    Ret false (with_error (Some (py "can't move; no direction specified")) s)
  else if is_valid s (x s + dx s) (y s + dy s) then
    Ret true (with_y (y s + dy s) (with_x (x s + dx s) s))
  else Ret false (with_error (Some (py "moved out of bounds")) s).
Proof.
  unfold _move. msimpl.
  destruct (_ && _); [done|]. by destruct (is_valid _ _ _).
Qed.

Lemma advance_eq s :
  advance s =
  match is_blocked s with
  | Ok true => Ret tt s
  | Ok false => Ret tt (final (_move s))
  | Err e => Raise e s
  end.
Proof.
  unfold advance, bind at 1. rewrite blocked_spec. unfold lift.
  destruct (is_blocked s) as [[]|]; try done. simpl.
  unfold bind, ret. rewrite _move_eq.
  destruct (_ && _); [done|]. by destruct (is_valid _ _ _).
Qed.

Lemma step_eq batch s :
  step batch s =
  match is_blocked s with
  | Ok true => Ret tt s
  | Ok false =>
      (instruction ← instruction;
       printable ← lift (is_printable instruction false);
       (if negb printable then
          t ← lift (to_printable instruction false);
          set_error (py "invalid instruction: " ++ t)
        else ret tt);;
       instruction ← lift (chr instruction);
       dispatch batch instruction;;
       advance) s
  | Err e => Raise e s
  end.
Proof.
  unfold step, bind at 1. rewrite blocked_spec. unfold lift.
  by destruct (is_blocked s) as [[]|].
Qed.

Lemma reachable_run n s : reachable s → reachable (run n s).
Proof.
  intros H. induction n as [|n IH]; [done|]. simpl. by apply reach_step.
Qed.

(** ** A blocked machine does not step *)

(** C4: when [blocked] holds, [step()] returns and leaves every attribute of
    the object (grid, pointer, direction, stack, input queue, output buffer,
    [needs_input], [error]) and the process's output exactly as they were. *)
Theorem step_blocked_noop batch s :
  blocked s = Ret true s → step batch s = Ret tt s.
Proof.
  intros [Hb _]%blocked_Ret. by rewrite step_eq, Hb.
Qed.

Lemma step_blocked_noop_witness :
  blocked (init [py "q"]) = Ret true (init [py "q"]) ∧
  step false (init [py "q"]) = Ret tt (init [py "q"]).
Proof.
  split; [vm_compute; reflexivity|].
  apply step_blocked_noop. vm_compute. reflexivity.
Defined.

(** The three ways of being blocked. *)
Lemma blocked_true_iff s :
  blocked s = Ret true s ↔
  ∃ v, cursor_cell s = Ok v ∧
       (v = VInt (ord (lit "q")) ∨ truthy (error s) = true ∨
        needs_input s = true).
Proof.
  rewrite blocked_Ret. unfold is_blocked. split.
  - intros [H _]. destruct (cursor_cell s) as [v|]; [|done].
    exists v. split; [done|]. injection H as H.
    apply orb_true_iff in H as [H|H]; [|by auto].
    apply orb_true_iff in H as [H|H]; [|by auto].
    left. by apply py_eq_true.
  - intros (v & -> & H). split; [|done]. f_equal.
    destruct H as [->|[->| ->]]; [done| |]; by rewrite ?orb_true_r.
Qed.

(** ** An empty program *)

(** C10: the interpreter built from no source line has a grid without rows
    and its pointer at (0,0); [instruction], [done], [blocked] and [step()]
    all raise [IndexError] there, and leave the object untouched (no
    diagnostic is set). *)
Theorem empty_program_raises batch :
  code (init []) = [] ∧
  (x (init []), y (init [])) = (0, 0) ∧
  instruction (init []) = Raise IndexError (init []) ∧
  done (init []) = Raise IndexError (init []) ∧
  blocked (init []) = Raise IndexError (init []) ∧
  step batch (init []) = Raise IndexError (init []) ∧
  error (init []) = None.
Proof. evaluate. Qed.

(** ** The scenario of a lone [G] *)

(** C2, as the specification states it, fails: the second step does not
    move the pointer. *)
Lemma G_scenario_stays : ¬ G_scenario_advances (VInt 65).
Proof.
  intros (_ & _ & _ & s' & Hstep & _ & Hmove).
  vm_compute in Hstep. injection Hstep as <-. by apply Hmove.
Qed.

(** C2, amended: from the source line [G] with nothing queued, the first
    step sets [needs_input] and leaves the pointer at (0,0); [input_char]
    queues the code and clears [needs_input]; the second step returns,
    takes the code off the queue, leaves the grid unchanged (the cell above
    is out of bounds) and, as no direction was ever set, leaves the pointer
    at (0,0) and sets the no-direction diagnostic. *)
Theorem lone_G_scenario char :
  needs_input G_blocked = true ∧
  (x G_blocked, y G_blocked) = (0, 0) ∧
  stdin (G_fed char) = [char] ∧
  needs_input (G_fed char) = false ∧
  ∃ s', G_resumed char = Ret tt s' ∧
        stdin s' = [] ∧
        code s' = code (G_fed char) ∧
        (x s', y s') = (0, 0) ∧
        error s' = Some (py "can't move; no direction specified").
Proof.
  do 4 (split; [vm_compute; reflexivity|]).
  eexists. split; [vm_compute; reflexivity|]. evaluate.
Qed.

(** ** Values that are not integers *)

(** C8 at the source line [S]: the cell above the pointer is out of bounds,
    [get] answers [None], and the step leaves [None] on the stack. *)
Theorem push_above_pushes_None :
  reachable (final (step false (init [py "S"]))) ∧
  get (init [py "S"]) 0 (-1) = VNone ∧
  stack (final (step false (init [py "S"]))) = [VNone].
Proof.
  split; [apply reach_step, reach_init|]. evaluate.
Qed.

(** ** Non-printable instructions *)

(** C3 at the program [prog_neg]: after nine steps the machine is not
    blocked and its pointer is on a cell holding [-1]; the tenth step sets
    the diagnostic and then raises [ValueError]. *)
Theorem step_negative_cell_raises :
  let s := run 9 (init prog_neg) in
  reachable s ∧
  blocked s = Ret false s ∧
  instruction s = Ret (VInt (-1)) s ∧
  step false s =
    Raise ValueError (with_error (Some (py "invalid instruction: -")) s).
Proof.
  split; [apply reachable_run, reach_init|]. evaluate.
Qed.

(** ** Characters *)

Lemma pychar_eq (c c' : pychar) : ord c = ord c' → c = c'.
Proof.
  destruct c as [i H], c' as [i' H']. simpl. intros <-.
  f_equal. apply Eqdep_dec.UIP_dec, bool_dec.
Qed.

Lemma chr_ord c : chr (VInt (ord c)) = Ok c.
Proof.
  unfold chr. destruct (bool_dec _ _) as [H|H].
  - f_equal. by apply pychar_eq.
  - destruct H. apply ord_range.
Qed.

Lemma chr_Ok v c : chr v = Ok c → v = VInt (ord c).
Proof.
  destruct v as [|i]; [done|]. unfold chr.
  destruct (bool_dec _ _); [|done]. by intros [= <-].
Qed.

(** ** One step, instruction by instruction *)

(** A step on a printable instruction is its dispatch, then the move. *)
Lemma step_printable batch s c :
  is_blocked s = Ok false →
  cursor_cell s = Ok (VInt (ord c)) →
  32 ≤ ord c ≤ 126 →
  step batch s = (dispatch batch c;; advance) s.
Proof.
  intros Hb Hc Hp. rewrite step_eq, Hb.
  unfold bind at 1. rewrite instruction_spec, Hc. unfold lift at 1.
  unfold bind at 1, lift at 1, is_printable. simpl.
  replace ((32 <=? ord c) && (ord c <=? 126)) with true
    by (symmetry; apply andb_true_iff; split; apply Z.leb_le; lia).
  simpl. unfold bind at 1, ret at 1. unfold bind at 1.
  fold (chr (VInt (ord c))). by rewrite chr_ord.
Qed.

(** Decide the comparisons of a literal instruction in [dispatch]. *)
Ltac dispatch_eval :=
  unfold dispatch;
  repeat match goal with
  | |- context [eqc (lit ?a) ?b] =>
      let v := eval vm_compute in (eqc (lit a) b) in
      change (eqc (lit a) b) with v
  end;
  cbv iota.

Lemma stack_top_snoc s rest top :
  stack s = rest ++ [top] → stack_top s = Ret top s.
Proof.
  intros H. unfold stack_top. msimpl. by rewrite H, py_index_last.
Qed.

Lemma is_blocked_frame s s' :
  code s' = code s → x s' = x s → y s' = y s →
  error s' = error s → needs_input s' = needs_input s →
  is_blocked s' = is_blocked s.
Proof.
  intros H1 H2 H3 H4 H5. unfold is_blocked, cursor_cell.
  by rewrite H1, H2, H3, H4, H5.
Qed.

(** A diagnostic blocks the machine wherever the pointer can be read. *)
Lemma is_blocked_error s s' msg b :
  is_blocked s = Ok b →
  code s' = code s → x s' = x s → y s' = y s →
  error s' = Some msg → msg ≠ [] →
  is_blocked s' = Ok true.
Proof.
  unfold is_blocked, cursor_cell. intros Hb -> -> -> -> Hm.
  destruct (py_index (code s) (y s)) as [row|]; [|done].
  destruct (py_index row (x s)); [|done].
  destruct msg; [done|]. simpl. by rewrite orb_true_r.
Qed.

(** What [_move] leaves alone. *)
Lemma _move_frame s :
  let s' := final (_move s) in
  code s' = code s ∧ dx s' = dx s ∧ dy s' = dy s ∧ stack s' = stack s ∧
  stdin s' = stdin s ∧ stdout s' = stdout s ∧
  needs_input s' = needs_input s ∧ sys_stdout s' = sys_stdout s.
Proof.
  rewrite _move_eq. destruct (_ && _); [done|].
  by destruct (is_valid _ _ _).
Qed.

(** [advance] returns wherever [blocked] does, and keeps the direction and
    the stack. *)
Lemma advance_Ret s b :
  is_blocked s = Ok b →
  ∃ s', advance s = Ret tt s' ∧ code s' = code s ∧
        dx s' = dx s ∧ dy s' = dy s ∧ stack s' = stack s ∧
        (b = true → s' = s).
Proof.
  intros Hb. rewrite advance_eq, Hb. destruct b.
  - by exists s.
  - exists (final (_move s)). destruct (_move_frame s) as (?&?&?&?&_).
    done.
Qed.

(** ** Conditional rotation *)

(** After an instruction that touched neither grid, pointer, [error] nor
    [needs_input], the step ends by [advance] and returns. *)
Lemma advance_after s s0 :
  is_blocked s = Ok false →
  code s0 = code s → x s0 = x s → y s0 = y s →
  error s0 = error s → needs_input s0 = needs_input s →
  ∃ s', advance s0 = Ret tt s' ∧ code s' = code s0 ∧
        dx s' = dx s0 ∧ dy s' = dy s0 ∧ stack s' = stack s0.
Proof.
  intros Hb H1 H2 H3 H4 H5.
  destruct (advance_Ret s0 false) as (s' & ? & ? & ? & ? & ? & _);
    [|by exists s'].
  by rewrite (is_blocked_frame s s0).
Qed.

Lemma step_X batch s rest top :
  is_blocked s = Ok false →
  cursor_cell s = Ok (VInt (ord (lit "X"))) →
  stack s = rest ++ [VInt top] →
  ∃ s', step batch s = Ret tt s' ∧
        (dx s', dy s') = if top <? 0 then (dy s, - dx s) else (dx s, dy s).
Proof.
  intros Hb Hc Hs.
  rewrite (step_printable _ _ _ Hb Hc) by (vm_compute; split; discriminate).
  dispatch_eval. msimpl. rewrite Hs, nonempty_snoc. cbv iota beta.
  rewrite (stack_top_snoc _ _ _ Hs). simpl py_lt. cbv iota beta.
  destruct (top <? 0); unfold _rotate; msimpl.
  - edestruct (advance_after s) as (s' & -> & _ & Hx & Hy & _);
      [done|reflexivity..|]. exists s'. by rewrite Hx, Hy.
  - edestruct (advance_after s s) as (s' & -> & _ & Hx & Hy & _);
      [done..|]. exists s'. by rewrite Hx, Hy.
Qed.

Lemma step_x batch s rest top :
  is_blocked s = Ok false →
  cursor_cell s = Ok (VInt (ord (lit "x"))) →
  stack s = rest ++ [VInt top] →
  ∃ s', step batch s = Ret tt s' ∧
        (dx s', dy s') = if 0 <? top then (- dy s, dx s) else (dx s, dy s).
Proof.
  intros Hb Hc Hs.
  rewrite (step_printable _ _ _ Hb Hc) by (vm_compute; split; discriminate).
  dispatch_eval. msimpl. rewrite Hs, nonempty_snoc. cbv iota beta.
  rewrite (stack_top_snoc _ _ _ Hs). simpl py_lt. cbv iota beta.
  destruct (0 <? top); unfold _rotate; msimpl.
  - edestruct (advance_after s) as (s' & -> & _ & Hx & Hy & _);
      [done|reflexivity..|]. exists s'. by rewrite Hx, Hy.
  - edestruct (advance_after s s) as (s' & -> & _ & Hx & Hy & _);
      [done..|]. exists s'. by rewrite Hx, Hy.
Qed.

(** ** Stack underflow *)

(** Reduce the attributes of an updated object. *)
Ltac attrs :=
  cbn [code x y dx dy stack stdout stdin needs_input error sys_stdout
       with_code with_x with_y with_dx with_dy with_stack with_stdout
       with_stdin with_needs_input with_error with_sys_stdout].

(** Once an instruction has set a diagnostic, the step returns there. *)
Lemma advance_error s s0 msg :
  is_blocked s = Ok false →
  code s0 = code s → x s0 = x s → y s0 = y s →
  error s0 = Some msg → msg ≠ [] →
  advance s0 = Ret tt s0.
Proof.
  intros Hb H1 H2 H3 H4 H5. rewrite advance_eq.
  by rewrite (is_blocked_error s s0 msg false).
Qed.

Lemma step_underflow batch s a :
  is_blocked s = Ok false →
  a ∈ stack_instructions →
  cursor_cell s = Ok (VInt (ord (lit a))) →
  stack s = [] →
  ∃ s', step batch s = Ret tt s' ∧
        error s' = Some underflow ∧ stack s' = [] ∧
        code s' = code s ∧ x s' = x s ∧ y s' = y s ∧
        stdin s' = stdin s ∧ stdout s' = stdout s ∧
        needs_input s' = needs_input s.
Proof.
  intros Hb Ha Hc Hs. unfold stack_instructions in Ha.
  repeat (apply elem_of_cons in Ha as [-> | Ha]);
    [..|by apply elem_of_nil in Ha];
    (rewrite (step_printable _ _ _ Hb Hc)
       by (vm_compute; split; discriminate));
    dispatch_eval;
    unfold _delete, _duplicate, _add, _subtract, _jump, jump_with,
      _get_above, _get_below;
    msimpl; attrs; rewrite Hs; cbn [nonempty negb];
    (erewrite (advance_error s); [|done|reflexivity..|done]);
    eexists; (split; [reflexivity|]); attrs; by rewrite ?Hs.
Qed.

(** C7: the length of the stack is never negative, and on an empty stack
    each of [D F f d A a R r X x H L K J] makes [step()] return with the
    stack-underflow diagnostic set and the stack still empty: no [pop()]
    and no [stack[-1]] is reached (either would raise [IndexError]). *)
Theorem stack_underflow_checked batch s a :
  blocked s = Ret false s →
  a ∈ stack_instructions →
  instruction s = Ret (VInt (ord (lit a))) s →
  stack s = [] →
  0 ≤ len (stack s) ∧
  ∃ s', step batch s = Ret tt s' ∧
        error s' = Some underflow ∧
        stack s' = stack s ∧ 0 ≤ len (stack s').
Proof.
  intros [Hb _]%blocked_Ret Ha [Hc _]%instruction_Ret Hs.
  split; [unfold len; lia|].
  destruct (step_underflow batch s a Hb Ha Hc Hs) as (s' & ? & ? & Hs' & _).
  exists s'. rewrite Hs, Hs'. do 3 (split; [done|]). unfold len. simpl. lia.
Qed.

Lemma stack_underflow_checked_witness :
  ∃ s', step false (init [py "D"]) = Ret tt s' ∧
        error s' = Some underflow ∧ stack s' = [].
Proof.
  destruct (stack_underflow_checked false (init [py "D"]) "D")
    as (_ & s' & Hstep & Herr & Hst & _).
  - vm_compute. reflexivity.
  - apply list_elem_of_here.
  - vm_compute. reflexivity.
  - reflexivity.
  - exists s'. split; [exact Hstep|]. split; [exact Herr | exact Hst].
Defined.

(** C1: on a non-blocked machine, [X] with a negative top of stack turns
    the direction (dx,dy) into (dy,-dx) and [x] with a positive top turns it
    into (-dy,dx); with any other integer on top the direction is kept; with
    an empty stack the stack-underflow diagnostic is set.  In each case
    [step()] returns. *)
Theorem conditional_rotate batch s :
  blocked s = Ret false s →
  (instruction s = Ret (VInt (ord (lit "X"))) s →
   (∀ rest top, stack s = rest ++ [VInt top] →
      ∃ s', step batch s = Ret tt s' ∧
            (top < 0 → (dx s', dy s') = (dy s, - dx s)) ∧
            (0 ≤ top → (dx s', dy s') = (dx s, dy s))) ∧
   (stack s = [] →
      ∃ s', step batch s = Ret tt s' ∧ error s' = Some underflow)) ∧
  (instruction s = Ret (VInt (ord (lit "x"))) s →
   (∀ rest top, stack s = rest ++ [VInt top] →
      ∃ s', step batch s = Ret tt s' ∧
            (0 < top → (dx s', dy s') = (- dy s, dx s)) ∧
            (top ≤ 0 → (dx s', dy s') = (dx s, dy s))) ∧
   (stack s = [] →
      ∃ s', step batch s = Ret tt s' ∧ error s' = Some underflow)).
Proof.
  intros [Hb _]%blocked_Ret.
  split; intros [Hc _]%instruction_Ret; split.
  - intros rest top Hs.
    destruct (step_X batch s rest top Hb Hc Hs) as (s' & Hstep & Hd).
    exists s'. split; [done|]. split; intros Ht.
    + by rewrite (proj2 (Z.ltb_lt _ _) Ht) in Hd.
    + by rewrite (proj2 (Z.ltb_ge _ _) Ht) in Hd.
  - intros Hs.
    destruct (step_underflow batch s "X" Hb) as (s' & ? & ? & _);
      [repeat constructor|done..|by exists s'].
  - intros rest top Hs.
    destruct (step_x batch s rest top Hb Hc Hs) as (s' & Hstep & Hd).
    exists s'. split; [done|]. split; intros Ht.
    + by rewrite (proj2 (Z.ltb_lt _ _) Ht) in Hd.
    + by rewrite (proj2 (Z.ltb_ge _ _) Ht) in Hd.
  - intros Hs.
    destruct (step_underflow batch s "x" Hb) as (s' & ? & ? & _);
      [repeat constructor|done..|by exists s'].
Qed.

(** The program [j !] / [lSRX]: after four steps the pointer is on [X], the
    direction is (1,0) and the stack holds [32 - 33]. *)
Lemma conditional_rotate_witness :
  let s := run 4 (init [py "j !"; py "lSRX"]) in
  (dx s, dy s) = (1, 0) ∧
  ∃ s', step false s = Ret tt s' ∧ (dx s', dy s') = (0, -1).
Proof.
  intros s. split; [vm_compute; reflexivity|].
  destruct (conditional_rotate false s) as [HX _].
  - vm_compute. reflexivity.
  - destruct HX as [Hturn _]; [vm_compute; reflexivity|].
    destruct (Hturn [] (-1)) as (s' & Hstep & Hneg & _);
      [vm_compute; reflexivity|].
    exists s'. split; [exact Hstep|]. apply Hneg. reflexivity.
Defined.

(** ** Serialising and parsing the grid *)

Lemma init_row_padded line : init_row line = (VInt ∘ ord) <$> padded line.
Proof.
  unfold init_row, padded. rewrite <- list_fmap_compose.
  apply list_fmap_ext. intros _ i _. simpl. by destruct (line !! i).
Qed.

Lemma row_to_string_ords (r : pystr) :
  row_to_string ((VInt ∘ ord) <$> r) = Ok r.
Proof.
  induction r as [|c r IH]; [done|].
  rewrite fmap_cons. cbn [row_to_string]. unfold compose at 1.
  by rewrite chr_ord, IH.
Qed.

Lemma init_row_idem line : init_row (padded line) = init_row line.
Proof.
  unfold init_row. apply list_fmap_ext. intros j i Hi.
  apply lookup_seq in Hi as [-> Hi]. unfold padded.
  rewrite list_lookup_fmap, lookup_seq_lt by done. simpl.
  by destruct (line !! j).
Qed.

Lemma rows_to_strings_init lines :
  rows_to_strings (init_row <$> lines) = Ok (padded <$> lines).
Proof.
  induction lines as [|line lines IH]; [done|].
  rewrite !fmap_cons. cbn [rows_to_strings].
  by rewrite init_row_padded, row_to_string_ords, IH.
Qed.

(** C6: for source lines of at most [COLUMNS] characters, [code_to_string]
    on the constructed interpreter returns rows from which the constructor
    rebuilds the same grid (and so the same object). *)
Theorem code_to_string_roundtrip lines :
  Forall (λ line, len line ≤ COLUMNS) lines →
  ∃ rows, code_to_string (init lines) = Ret rows (init lines) ∧
          code (init rows) = code (init lines) ∧
          init rows = init lines.
Proof.
  intros _. exists (padded <$> lines).
  assert (init_row <$> (padded <$> lines) = init_row <$> lines) as Hcode.
  { rewrite <- list_fmap_compose. apply list_fmap_ext. intros _ line _.
    apply init_row_idem. }
  split; [|split].
  - unfold code_to_string. msimpl. cbn [init code].
    by rewrite rows_to_strings_init.
  - done.
  - unfold init. by rewrite Hcode.
Qed.

Lemma code_to_string_roundtrip_witness :
  ∃ rows, code_to_string (init [py "lq"; []]) =
            Ret rows (init [py "lq"; []]) ∧
          code (init rows) = code (init [py "lq"; []]).
Proof.
  destruct (code_to_string_roundtrip [py "lq"; []])
    as (rows & Hs & Hc & _).
  - repeat constructor; vm_compute; discriminate.
  - exists rows. split; [exact Hs | exact Hc].
Defined.

(** ** The shape of the grid and the position of the pointer *)

(** [is_valid] only looks at the lengths of the rows. *)
Lemma is_valid_shape s s' cx cy :
  length <$> code s' = length <$> code s →
  is_valid s' cx cy = is_valid s cx cy.
Proof.
  intros H. unfold is_valid, len.
  assert (length (code s') = length (code s)) as ->.
  { by rewrite <- (length_fmap length (code s')), H, length_fmap. }
  assert (length <$> code s' !! Z.to_nat cy = length <$> code s !! Z.to_nat cy)
    as Hrow by (by rewrite <- !list_lookup_fmap, H).
  destruct (code s' !! _), (code s !! _); simpl in Hrow; try done.
  by injection Hrow as ->.
Qed.

Lemma alter_insert_shape (rows : list (list value)) i j v :
  length <$> alter (<[i := v]>) j rows = length <$> rows.
Proof.
  apply list_eq. intros k. rewrite !list_lookup_fmap, list_lookup_alter.
  destruct (decide (j = k)) as [->|]; [|done].
  destruct (rows !! k); simpl; [|done]. by rewrite length_insert.
Qed.

Lemma well_formed_shape s s' :
  length <$> code s' = length <$> code s → x s' = x s → y s' = y s →
  well_formed s → well_formed s'.
Proof.
  intros Hc Hx Hy [Hrows Hptr]. split.
  - apply Forall_lookup. intros i row Hi.
    assert (length <$> code s !! i = Some (length row)) as Hi'
      by (by rewrite <- list_lookup_fmap, <- Hc, list_lookup_fmap, Hi).
    destruct (code s !! i) as [row0|] eqn:E; [|done].
    injection Hi' as Hi'. unfold len. rewrite <- Hi'.
    apply (Forall_lookup_1 _ _ _ _ Hrows E).
  - intros Hne. rewrite Hx, Hy, (is_valid_shape s s') by done.
    apply Hptr. intros E. apply Hne.
    apply (f_equal length) in Hc. rewrite !length_fmap, E in Hc.
    by destruct (code s').
Qed.

(** *** The rules of [keeps] *)

Lemma keeps_ret {A} P (a : A) : keeps P (ret a).
Proof. by intros s. Qed.

Lemma keeps_gets {A} P (f : State → A) : keeps P (gets f).
Proof. by intros s. Qed.

Lemma keeps_lift {A} P (r : result A) : keeps P (lift r).
Proof. intros s. by destruct r. Qed.

Lemma keeps_timeout {A} P : keeps P (@timeout A).
Proof. by intros s. Qed.

Lemma keeps_modify P f : (∀ s, P s → P (f s)) → keeps P (modify f).
Proof. intros H s. apply H. Qed.

Lemma keeps_bind {A B} P (m : M A) (f : A → M B) :
  keeps P m → (∀ a, keeps P (f a)) → keeps P (bind m f).
Proof.
  intros Hm Hf s Hs. rewrite final_bind. specialize (Hm s Hs).
  destruct (m s); simpl in Hm; [by apply Hf|done..].
Qed.

Lemma keeps_if {A} P (b : bool) (m1 m2 : M A) :
  keeps P m1 → keeps P m2 → keeps P (if b then m1 else m2).
Proof. by destruct b. Qed.

(** An update of attributes other than the grid and the pointer. *)
Lemma keeps_well_formed_modify f :
  (∀ s, code (f s) = code s ∧ x (f s) = x s ∧ y (f s) = y s) →
  keeps well_formed (modify f).
Proof.
  intros H. apply keeps_modify. intros s.
  destruct (H s) as (Hc & Hx & Hy). apply well_formed_shape; by rewrite ?Hc.
Qed.

(** *** Each method keeps the grid's shape and the pointer on the grid *)

Create HintDb keeps.

Lemma keeps_put symbol cx cy : keeps well_formed (put symbol cx cy).
Proof.
  apply keeps_modify. intros s. destruct (is_valid s cx cy); [|done].
  apply well_formed_shape; [apply alter_insert_shape|done..].
Qed.

Lemma keeps__move : keeps well_formed _move.
Proof.
  intros s Hs. rewrite _move_eq.
  destruct (_ && _); [by apply (well_formed_shape s)|].
  destruct (is_valid _ _ _) eqn:E; [|by apply (well_formed_shape s)].
  destruct Hs as [Hrows _]. split; [done|]. intros _. exact E.
Qed.

#[local] Hint Resolve keeps_ret keeps_gets keeps_lift keeps_timeout
  keeps_put keeps__move : keeps.

(** Break a method into its calls and close each with the rules. *)
Ltac keeps_wf :=
  repeat first
    [ solve [auto with keeps]
    | apply keeps_bind; [|intros ?]
    | apply keeps_if
    | apply keeps_well_formed_modify; intros ?; done
    | match goal with
      | |- keeps _ (match ?q with _ => _ end) => destruct q
      end ].

Lemma keeps_instruction : keeps well_formed instruction.
Proof. unfold instruction. keeps_wf. Qed.

Lemma keeps_blocked : keeps well_formed blocked.
Proof. pose proof keeps_instruction. unfold blocked, done. keeps_wf. Qed.

Lemma keeps_stack_top : keeps well_formed stack_top.
Proof. unfold stack_top. keeps_wf. Qed.

Lemma keeps_pop : keeps well_formed pop.
Proof. unfold pop. keeps_wf. Qed.

Lemma keeps_push v : keeps well_formed (push v).
Proof. unfold push. keeps_wf. Qed.

Lemma keeps_set_error msg : keeps well_formed (set_error msg).
Proof. unfold set_error. keeps_wf. Qed.

Lemma keeps_set_direction a b : keeps well_formed (set_direction a b).
Proof. unfold set_direction. keeps_wf. Qed.

#[local] Hint Resolve keeps_instruction keeps_blocked keeps_stack_top
  keeps_pop keeps_push keeps_set_error keeps_set_direction : keeps.

Lemma keeps_jump_scan budget : keeps well_formed (jump_scan budget).
Proof. induction budget; simpl; keeps_wf. Qed.

#[local] Hint Resolve keeps_jump_scan : keeps.

Lemma keeps__jump : keeps well_formed _jump.
Proof. unfold _jump, jump_with. keeps_wf. Qed.

Lemma keeps__print char batch : keeps well_formed (_print char batch).
Proof. unfold _print. keeps_wf. Qed.

Lemma keeps__put_above v : keeps well_formed (_put_above v).
Proof. unfold _put_above. keeps_wf. Qed.

Lemma keeps__put_below v : keeps well_formed (_put_below v).
Proof. unfold _put_below. keeps_wf. Qed.

Lemma keeps__delete : keeps well_formed _delete.
Proof. unfold _delete. keeps_wf. Qed.

Lemma keeps__duplicate : keeps well_formed _duplicate.
Proof. unfold _duplicate. keeps_wf. Qed.

Lemma keeps__add v : keeps well_formed (_add v).
Proof. unfold _add. keeps_wf. Qed.

Lemma keeps__subtract v : keeps well_formed (_subtract v).
Proof. unfold _subtract. keeps_wf. Qed.

Lemma keeps__rotate clockwise : keeps well_formed (_rotate clockwise).
Proof. unfold _rotate. keeps_wf. Qed.

#[local] Hint Resolve keeps__jump keeps__print keeps__put_above
  keeps__put_below keeps__delete keeps__duplicate keeps__add
  keeps__subtract keeps__rotate : keeps.

Lemma keeps_dispatch batch c : keeps well_formed (dispatch batch c).
Proof. unfold dispatch, _get_above, _get_below. keeps_wf. Qed.

Lemma keeps_step batch : keeps well_formed (step batch).
Proof. pose proof keeps_dispatch. unfold step. keeps_wf. Qed.

Lemma keeps_input_char char : keeps well_formed (input_char char).
Proof. unfold input_char. keeps_wf. Qed.

Lemma keeps_input_string string : keeps well_formed (input_string string).
Proof.
  pose proof keeps_input_char. induction string; simpl; keeps_wf.
Qed.

Lemma init_row_length line : len (init_row line) = COLUMNS.
Proof. unfold init_row, len. by rewrite length_fmap, length_seq. Qed.

Lemma well_formed_init lines : well_formed (init lines).
Proof.
  split; simpl.
  - apply Forall_fmap, Forall_true. intros line. apply init_row_length.
  - destruct lines as [|line lines]; [done|]. intros _.
    unfold is_valid. cbn [init code x y fmap list_fmap].
    change ((init_row line :: _) !! Z.to_nat 0) with (Some (init_row line)).
    cbv beta iota. rewrite init_row_length. unfold len. cbn [length].
    apply andb_true_iff. split; [|done].
    apply andb_true_iff. split; [done|]. apply Z.ltb_lt. lia.
Qed.

Lemma reachable_well_formed s : reachable s → well_formed s.
Proof.
  induction 1 as [lines|batch s _ IH|char s _ IH|string s _ IH].
  - apply well_formed_init.
  - by apply keeps_step.
  - by apply keeps_input_char.
  - by apply keeps_input_string.
Qed.

Lemma is_valid_bounds s cx cy :
  is_valid s cx cy = true →
  ∃ row, code s !! Z.to_nat cy = Some row ∧
         0 ≤ cy < len (code s) ∧ 0 ≤ cx < len row.
Proof.
  unfold is_valid. intros [[H1 H2]%andb_true_iff H3]%andb_true_iff.
  destruct (code s !! Z.to_nat cy) as [row|]; [|done].
  apply andb_true_iff in H3 as [H3 H4]. exists row.
  apply Z.leb_le in H1, H3. apply Z.ltb_lt in H2, H4. done.
Qed.

(** C9: in every object reachable from the constructor by [step],
    [input_char] and [input_string] on which [blocked] is false, the
    pointer is a valid coordinate of the grid, [0 <= y < len(code)] and
    [0 <= x < COLUMNS]; and [_move] commits a new position only if
    [is_valid] accepted it. *)
Theorem pointer_on_grid s :
  reachable s →
  blocked s = Ret false s →
  is_valid s (x s) (y s) = true ∧
  0 ≤ y s < len (code s) ∧ 0 ≤ x s < COLUMNS ∧
  ((x (final (_move s)), y (final (_move s))) = (x s, y s) ∨
   (x (final (_move s)), y (final (_move s))) = (x s + dx s, y s + dy s) ∧
   is_valid s (x s + dx s) (y s + dy s) = true).
Proof.
  intros [Hrows Hptr]%reachable_well_formed [Hb _]%blocked_Ret.
  assert (is_valid s (x s) (y s) = true) as Hv.
  { apply Hptr. intros E. unfold is_blocked, cursor_cell in Hb.
    by rewrite E, py_index_nil in Hb. }
  split; [done|].
  destruct (is_valid_bounds _ _ _ Hv) as (row & Hrow & Hy & Hx).
  rewrite (Forall_lookup_1 _ _ _ _ Hrows Hrow) in Hx.
  do 2 (split; [done|]).
  rewrite _move_eq. destruct (_ && _); [by left|].
  destruct (is_valid s (x s + dx s) (y s + dy s)); [by right|by left].
Qed.

Lemma pointer_on_grid_witness :
  is_valid (init [py "l"]) 0 0 = true ∧
  0 ≤ 0 < len (code (init [py "l"])) ∧ 0 ≤ 0 < COLUMNS.
Proof.
  destruct (pointer_on_grid (init [py "l"])) as (Hv & Hy & Hx & _).
  - apply reach_init.
  - vm_compute. reflexivity.
  - split; [exact Hv|]. split; [exact Hy | exact Hx].
Defined.

(** ** The jump scan *)

Lemma is_valid_cell s cx cy :
  is_valid s cx cy = true →
  ∃ row v, py_index (code s) cy = Ok row ∧ py_index row cx = Ok v.
Proof.
  intros (row & Hrow & Hy & Hx)%is_valid_bounds.
  assert (∀ {A} (l : list A) i a, 0 ≤ i < len l →
            l !! Z.to_nat i = Some a → py_index l i = Ok a) as Hidx.
  { intros A l i a Hi Ha. unfold py_index, py_pos.
    replace (i <? 0) with false by (symmetry; apply Z.ltb_ge; lia).
    replace ((0 <=? i) && (i <? len l)) with true; [simpl; by rewrite Ha|].
    symmetry. apply andb_true_iff.
    split; [apply Z.leb_le|apply Z.ltb_lt]; lia. }
  destruct (lookup_lt_is_Some_2 row (Z.to_nat cx)) as [v Hv];
    [unfold len in Hx; lia|].
  exists row, v. split; by apply Hidx.
Qed.

Lemma is_valid_widest s cx cy : is_valid s cx cy = true → cx < widest s.
Proof.
  intros (row & Hrow & _ & Hx)%is_valid_bounds. unfold widest, len in *.
  assert (length row ≤ max_list (length <$> code s))%nat; [|lia].
  apply max_list_elem_of_le, list_elem_of_fmap_2.
  by apply list_elem_of_lookup_2 in Hrow.
Qed.

Lemma remaining_pos s :
  is_valid s (x s) (y s) = true → (1 ≤ remaining s ≤ jump_budget s)%nat.
Proof.
  intros Hv. pose proof (is_valid_widest _ _ _ Hv) as Hw.
  apply is_valid_bounds in Hv as (row & _ & Hy & Hx).
  unfold remaining, jump_budget. fold (widest s) in *.
  unfold widest, len in *.
  repeat destruct (_ <? _); lia.
Qed.

(** A committed move brings the pointer closer to the edge. *)
Lemma remaining_move s s' :
  _move s = Ret true s' →
  is_valid s' (x s') (y s') = true ∧ (remaining s' < remaining s)%nat ∧
  code s' = code s ∧ stack s' = stack s ∧ error s' = error s ∧
  dx s' = dx s ∧ dy s' = dy s.
Proof.
  rewrite _move_eq. destruct (_ && _) eqn:Hd; [done|].
  destruct (is_valid _ _ _) eqn:Hv; [|done]. intros [= <-].
  split; [exact Hv|]. split; [|done].
  pose proof (is_valid_widest _ _ _ Hv) as Hw.
  apply is_valid_bounds in Hv as (row & _ & Hy & Hx).
  apply andb_false_iff in Hd.
  unfold remaining, widest, len in *. attrs.
  destruct (0 <? dx s) eqn:E1; [apply Z.ltb_lt in E1; lia|].
  destruct (dx s <? 0) eqn:E2; [apply Z.ltb_lt in E2; lia|].
  apply Z.ltb_ge in E1, E2.
  destruct (0 <? dy s) eqn:E3; [apply Z.ltb_lt in E3; lia|].
  apply Z.ltb_ge in E3.
  destruct Hd as [Hd|Hd]; apply Z.eqb_neq in Hd; lia.
Qed.

Lemma nonempty_inv {A} (l : list A) :
  nonempty l = true → ∃ rest top, l = rest ++ [top].
Proof.
  destruct l as [|a l] using rev_ind; [done|]. intros _. by exists l, a.
Qed.

(** [_move] returns; it never raises. *)
Lemma _move_returns s : ∃ ok s', _move s = Ret ok s'.
Proof.
  rewrite _move_eq. destruct (_ && _); [by eauto|].
  destruct (is_valid s (x s + dx s) (y s + dy s)); by eauto.
Qed.

Lemma _move_false s s' :
  _move s = Ret false s' →
  code s' = code s ∧ stack s' = stack s ∧ dx s' = dx s ∧ dy s' = dy s ∧
  x s' = x s ∧ y s' = y s.
Proof.
  rewrite _move_eq. destruct (_ && _); [by intros [= <-]|].
  destruct (is_valid s (x s + dx s) (y s + dy s)); [done|].
  by intros [= <-].
Qed.

(** With the pointer on the grid, the loop ends within [remaining] turns:
    on a cell equal to the top of the stack, or with the diagnostic. *)
Lemma jump_scan_terminates n : ∀ s rest top,
  is_valid s (x s) (y s) = true →
  stack s = rest ++ [top] →
  (remaining s ≤ n)%nat →
  ∃ s', jump_scan n s = Ret tt s' ∧
        code s' = code s ∧ stack s' = stack s ∧
        dx s' = dx s ∧ dy s' = dy s ∧
        is_valid s' (x s') (y s') = true ∧
        (cursor_cell s' = Ok top ∧ error s' = error s ∨
         error s' = Some (py "jumped out of bounds")).
Proof.
  induction n as [|n IH]; intros s rest top Hv Hs Hn.
  { pose proof (remaining_pos s Hv). lia. }
  destruct (is_valid_cell _ _ _ Hv) as (row & v & Hrow & Hcell).
  assert (cursor_cell s = Ok v) as Hc
    by (unfold cursor_cell; by rewrite Hrow).
  cbn [jump_scan]. unfold bind at 1. rewrite instruction_spec, Hc.
  unfold lift at 1. unfold bind at 1.
  rewrite (stack_top_snoc _ _ _ Hs).
  destruct (py_eq v top) eqn:Heq; cbn [negb].
  { apply py_eq_true in Heq as ->. exists s. unfold ret.
    split; [done|]. do 5 (split; [done|]). by left. }
  unfold bind at 1. destruct (_move_returns s) as (ok & s1 & Hm).
  rewrite Hm. destruct ok; cbn [negb].
  - apply remaining_move in Hm as (Hv1 & Hlt & Hc1 & Hs1 & He1 & Hx1 & Hy1).
    destruct (IH s1 rest top) as (s' & -> & ? & ? & ? & ? & ? & Hpost);
      [done|by rewrite Hs1|lia|].
    exists s'. rewrite <- Hc1, <- Hs1, <- Hx1, <- Hy1, <- He1.
    split; [done|]. by do 5 (split; [done|]).
  - apply _move_false in Hm as (Hc1 & ? & ? & ? & Hx1 & Hy1).
    exists (with_error (Some (py "jumped out of bounds")) s1).
    split; [reflexivity|]. attrs. do 4 (split; [done|]).
    split; [|by right].
    rewrite Hx1, Hy1, <- Hv. apply is_valid_shape. attrs. by rewrite Hc1.
Qed.

(** A loop that ended within its budget ends the same way with more. *)
Lemma jump_scan_more n : ∀ m s s',
  (n ≤ m)%nat → jump_scan n s = Ret tt s' → jump_scan m s = Ret tt s'.
Proof.
  induction n as [|n IH]; intros m s s' Hm; [done|].
  destruct m as [|m]; [lia|]. cbn [jump_scan]. unfold bind.
  destruct (instruction s) as [i s1| |]; [|done..].
  destruct (stack_top s1) as [top s2| |]; [|done..].
  destruct (negb (py_eq i top)); [|done].
  destruct (_move s2) as [ok s3| |]; [|done..].
  destruct (negb ok); [done|]. apply IH. lia.
Qed.

(** The body of [_jump] ends within [jump_budget], whatever the direction
    and wherever the pointer. *)
Lemma jump_with_terminates n s rest top :
  stack s = rest ++ [top] →
  (jump_budget s ≤ n)%nat →
  ∃ s', jump_with n s = Ret tt s' ∧
        code s' = code s ∧ stack s' = stack s ∧
        dx s' = dx s ∧ dy s' = dy s ∧
        ((x s', y s') = (x s, y s) ∨ is_valid s' (x s') (y s') = true) ∧
        (cursor_cell s' = Ok top ∧ error s' = error s ∨
         error s' = Some (py "jumped out of bounds")).
Proof.
  intros Hs Hn. unfold jump_with. msimpl.
  replace (nonempty (stack s)) with true by (by rewrite Hs, nonempty_snoc).
  cbn [negb]. destruct (_move_returns s) as (ok & s1 & Hm).
  rewrite Hm. destruct ok; cbn [negb].
  - apply remaining_move in Hm as (Hv1 & _ & Hc1 & Hs1 & He1 & Hx1 & Hy1).
    destruct (jump_scan_terminates n s1 rest top)
      as (s' & -> & ? & ? & ? & ? & ? & Hpost); [done|by rewrite Hs1| |].
    { pose proof (remaining_pos s1 Hv1). unfold jump_budget in *.
      rewrite Hc1 in *. lia. }
    exists s'. rewrite <- Hc1, <- Hs1, <- Hx1, <- Hy1, <- He1.
    split; [done|]. do 4 (split; [done|]). split; [by right|done].
  - apply _move_false in Hm as (? & ? & ? & ? & Hx1 & Hy1).
    exists (with_error (Some (py "jumped out of bounds")) s1).
    split; [reflexivity|]. attrs. do 4 (split; [done|]).
    split; [left; by rewrite Hx1, Hy1|by right].
Qed.

(** More budget than [jump_budget] changes nothing. *)
Lemma jump_with_budget n s :
  (jump_budget s ≤ n)%nat → jump_with n s = _jump s.
Proof.
  intros Hn. unfold _jump. msimpl.
  destruct (nonempty (stack s)) eqn:Hne.
  - apply nonempty_inv in Hne as (rest & top & Hs).
    destruct (jump_with_terminates (jump_budget s) s rest top)
      as (s' & Hb & _); [done..|].
    rewrite Hb. revert Hb. unfold jump_with. msimpl.
    rewrite Hs, nonempty_snoc. cbn [negb].
    destruct (_move s) as [ok s1| |]; [|done..].
    destruct (negb ok); [done|]. by apply jump_scan_more.
  - unfold jump_with. msimpl. by rewrite Hne.
Qed.

Lemma dispatch_jump batch a s rest top :
  a ∈ jump_instructions →
  stack s = rest ++ [top] →
  ∃ s', dispatch batch (lit a) s = Ret tt s' ∧
        code s' = code s ∧ stack s' = stack s ∧
        ((x s', y s') = (x s, y s) ∨ is_valid s' (x s') (y s') = true) ∧
        (cursor_cell s' = Ok top ∧ error s' = error s ∨
         error s' = Some (py "jumped out of bounds")).
Proof.
  intros Ha Hs. unfold jump_instructions in Ha.
  repeat (apply elem_of_cons in Ha as [-> | Ha]);
    [..|by apply elem_of_nil in Ha];
    dispatch_eval; unfold _jump; msimpl;
    match goal with
    | |- context [jump_with ?n ?s0] =>
        destruct (jump_with_terminates n s0 rest top)
          as (s' & -> & ? & ? & _ & _ & ? & ?); [exact Hs|done|]
    end;
    by exists s'.
Qed.

Lemma dispatch_jump_empty batch a s :
  a ∈ jump_instructions →
  stack s = [] →
  ∃ s', dispatch batch (lit a) s = Ret tt s' ∧
        error s' = Some underflow ∧
        (x s', y s') = (x s, y s) ∧ code s' = code s ∧ stack s' = [].
Proof.
  intros Ha Hs. unfold jump_instructions in Ha.
  repeat (apply elem_of_cons in Ha as [-> | Ha]);
    [..|by apply elem_of_nil in Ha];
    dispatch_eval; unfold _jump, jump_with; msimpl; attrs;
    rewrite Hs; cbn [nonempty negb];
    eexists; (split; [reflexivity|]); attrs; by rewrite Hs.
Qed.

Lemma step_jump_returns batch a s rest top :
  is_blocked s = Ok false →
  cursor_cell s = Ok (VInt (ord (lit a))) →
  a ∈ jump_instructions →
  stack s = rest ++ [top] →
  ∃ s', step batch s = Ret tt s'.
Proof.
  intros Hb Hc Ha Hs.
  rewrite (step_printable _ _ _ Hb Hc).
  2:{ unfold jump_instructions in Ha.
      repeat (apply elem_of_cons in Ha as [-> | Ha]);
        [..|by apply elem_of_nil in Ha]; vm_compute; split; discriminate. }
  destruct (dispatch_jump batch a s rest top Ha Hs)
    as (s1 & Hd & Hc1 & _ & Hpos & _).
  unfold bind. rewrite Hd.
  assert (∃ v, cursor_cell s1 = Ok v) as [v Hv].
  { destruct Hpos as [[= Hx Hy]|Hv].
    - exists (VInt (ord (lit a))). unfold cursor_cell in *.
      by rewrite Hc1, Hx, Hy.
    - destruct (is_valid_cell _ _ _ Hv) as (row & v & Hrow & Hcell).
      exists v. unfold cursor_cell. by rewrite Hrow. }
  destruct (advance_Ret s1
    (py_eq v (VInt (ord (lit "q"))) || truthy (error s1) || needs_input s1))
    as (s' & -> & _); [|by exists s'].
  unfold is_blocked. by rewrite Hv.
Qed.

(** *** No call exhausts the budget of the loop *)

Lemma finishes_ret {A} (a : A) : finishes (ret a).
Proof. by intros s s'. Qed.

Lemma finishes_gets {A} (f : State → A) : finishes (gets f).
Proof. by intros s s'. Qed.

Lemma finishes_modify f : finishes (modify f).
Proof. by intros s s'. Qed.

Lemma finishes_lift {A} (r : result A) : finishes (lift r).
Proof. intros s s'. by destruct r. Qed.

Lemma finishes_bind {A B} (m : M A) (f : A → M B) :
  finishes m → (∀ a, finishes (f a)) → finishes (bind m f).
Proof.
  intros Hm Hf s s'. unfold bind. specialize (Hm s).
  destruct (m s) as [a s1|e s1|s1]; [apply Hf|done|by destruct (Hm s1)].
Qed.

Lemma finishes_if {A} (b : bool) (m1 m2 : M A) :
  finishes m1 → finishes m2 → finishes (if b then m1 else m2).
Proof. by destruct b. Qed.

Lemma finishes__jump : finishes _jump.
Proof.
  intros s s'. destruct (nonempty (stack s)) eqn:Hne.
  - apply nonempty_inv in Hne as (rest & top & Hs).
    destruct (jump_with_terminates (jump_budget s) s rest top)
      as (s1 & H1 & _); [done..|].
    unfold _jump. msimpl. by rewrite H1.
  - unfold _jump, jump_with. msimpl. by rewrite Hne.
Qed.

Create HintDb finishes.

#[local] Hint Resolve finishes_ret finishes_gets finishes_modify
  finishes_lift finishes__jump : finishes.

Ltac finishes_tac :=
  repeat first
    [ solve [auto with finishes]
    | apply finishes_bind; [|intros ?]
    | apply finishes_if
    | match goal with
      | |- finishes (match ?q with _ => _ end) => destruct q
      end ].

Lemma finishes_dispatch batch c : finishes (dispatch batch c).
Proof.
  unfold dispatch, _get_above, _get_below, _print, _put_above, _put_below,
    put, _delete, _duplicate, _add, _subtract, _rotate, pop, push, stack_top,
    set_direction, set_error.
  finishes_tac.
Qed.

Lemma finishes_step batch : finishes (step batch).
Proof.
  pose proof finishes_dispatch.
  unfold step, blocked, done, instruction, _move, set_error.
  finishes_tac.
Qed.

(** C5: a jump instruction ([H], [L], [K], [J]) executed with a non-empty
    stack returns: the scan has stopped with the pointer on a cell equal to
    the top of the stack, or the out-of-bounds diagnostic is set; grid and
    stack are as before, and the whole [step()] returns too.  With an empty
    stack the stack-underflow diagnostic is set and the pointer has not
    moved.  The loop never needs more than [jump_budget] turns: a larger
    budget gives the same outcome, and neither [_jump] nor [step()] ever
    ends for want of budget. *)
Theorem jump_terminates batch a s :
  a ∈ jump_instructions →
  (∀ rest top, stack s = rest ++ [top] →
     (∃ s', dispatch batch (lit a) s = Ret tt s' ∧
            code s' = code s ∧ stack s' = stack s ∧
            (cursor_cell s' = Ok top ∧ error s' = error s ∨
             error s' = Some (py "jumped out of bounds"))) ∧
     (blocked s = Ret false s →
      instruction s = Ret (VInt (ord (lit a))) s →
      ∃ s', step batch s = Ret tt s')) ∧
  (stack s = [] →
     ∃ s', dispatch batch (lit a) s = Ret tt s' ∧
           error s' = Some underflow ∧
           (x s', y s') = (x s, y s) ∧ code s' = code s) ∧
  (∀ n, (jump_budget s ≤ n)%nat → jump_with n s = _jump s) ∧
  (∀ s', _jump s ≠ Timeout s' ∧ step batch s ≠ Timeout s').
Proof.
  intros Ha. split; [|split; [|split]].
  - intros rest top Hs. split.
    + destruct (dispatch_jump batch a s rest top Ha Hs)
        as (s' & ? & ? & ? & _ & ?).
      by exists s'.
    + intros [Hb _]%blocked_Ret [Hc _]%instruction_Ret.
      by apply (step_jump_returns batch a s rest top).
  - intros Hs.
    destruct (dispatch_jump_empty batch a s Ha Hs) as (s' & ? & ? & ? & ? & _).
    by exists s'.
  - intros n. apply jump_with_budget.
  - intros s'. split; [apply finishes__jump|apply finishes_step].
Qed.

Lemma jump_terminates_witness :
  let s := run 3 (init [py "j"; py "lSLq"]) in
  ∃ s', dispatch false (lit "L") s = Ret tt s' ∧
        code s' = code s ∧ stack s' = stack s ∧
        (cursor_cell s' = Ok (VInt 32) ∧ error s' = error s ∨
         error s' = Some (py "jumped out of bounds")).
Proof.
  intros s. destruct (jump_terminates false "L" s) as [Hjump _].
  - apply list_elem_of_further, list_elem_of_here.
  - destruct (Hjump [] (VInt 32)) as [H _]; [vm_compute; reflexivity|].
    exact H.
Defined.

(** ** Instructions that are not printable characters *)

Lemma to_printable_int i :
  ¬ (32 ≤ i ≤ 126) → ∃ t, to_printable (VInt i) false = Ok t.
Proof.
  intros Hi. unfold to_printable, is_printable. cbn [andb py_eq].
  replace ((32 <=? i) && (i <=? 126)) with false.
  - cbv beta zeta iota.
    repeat match goal with
    | |- context [if ?b then _ else _] => destruct b
    end; eexists; reflexivity.
  - symmetry. apply andb_false_iff. rewrite Z.leb_gt, Z.leb_gt. lia.
Qed.

Lemma eqc_nonprintable c a :
  ¬ (32 ≤ ord c ≤ 126) → 32 ≤ ord (lit a) ≤ 126 → eqc c a = false.
Proof. intros H1 H2. unfold eqc. apply Z.eqb_neq. lia. Qed.

(** A code that [chr] accepts but that is not printable: the step ends
    with the invalid-instruction diagnostic and nothing else changed. *)
Lemma step_nonprintable batch s i c :
  is_blocked s = Ok false →
  cursor_cell s = Ok (VInt i) →
  ¬ (32 ≤ i ≤ 126) →
  chr (VInt i) = Ok c →
  step batch s =
    Ret tt (with_error (Some (py "invalid instruction: " ++ [c])) s).
Proof.
  intros Hb Hc Hi Hchr. pose proof (chr_Ok _ _ Hchr) as [= ->].
  destruct (to_printable_int _ Hi) as [t Ht].
  rewrite step_eq, Hb. unfold bind at 1. rewrite instruction_spec, Hc.
  unfold lift at 1. unfold bind at 1, lift at 1, is_printable.
  cbn [andb py_eq].
  replace ((32 <=? ord c) && (ord c <=? 126)) with false
    by (symmetry; apply andb_false_iff; rewrite !Z.leb_gt; lia).
  cbn [negb]. rewrite Ht, Hchr. msimpl. unfold dispatch.
  repeat (rewrite (eqc_nonprintable c _ Hi)
            by (vm_compute; split; discriminate)).
  msimpl. cbn [andb negb].
  erewrite (advance_error s); [reflexivity|done|reflexivity..|done].
Qed.

(** A code outside the domain of [chr]: the diagnostic is set, then [chr]
    raises. *)
Lemma step_out_of_chr batch s i :
  is_blocked s = Ok false →
  cursor_cell s = Ok (VInt i) →
  in_chr_range i = false →
  ∃ t, step batch s =
         Raise ValueError
           (with_error (Some (py "invalid instruction: " ++ t)) s).
Proof.
  intros Hb Hc Hr.
  assert (¬ (32 ≤ i ≤ 126)) as Hi.
  { intros [H1 H2]. unfold in_chr_range in Hr.
    apply andb_false_iff in Hr. rewrite !Z.leb_gt in Hr. lia. }
  destruct (to_printable_int _ Hi) as [t Ht]. exists t.
  rewrite step_eq, Hb. unfold bind at 1. rewrite instruction_spec, Hc.
  unfold lift at 1. unfold bind at 1, lift at 1, is_printable.
  cbn [andb py_eq].
  replace ((32 <=? i) && (i <=? 126)) with false
    by (symmetry; apply andb_false_iff; rewrite !Z.leb_gt; lia).
  cbn [negb]. rewrite Ht. msimpl. unfold chr.
  destruct (bool_dec _ _) as [E|_]; [congruence|done].
Qed.

(** A cell holding [None]: [is_printable] raises at once. *)
Lemma step_on_None batch s :
  is_blocked s = Ok false →
  cursor_cell s = Ok VNone →
  step batch s = Raise TypeError s.
Proof.
  intros Hb Hc. rewrite step_eq, Hb. unfold bind at 1.
  by rewrite instruction_spec, Hc.
Qed.

(** * Further properties *)

(** ** The grid: [get], [put], [new_line] *)

Lemma lookup_cell_valid s cx cy :
  is_valid s cx cy = true →
  ∃ row v, code s !! Z.to_nat cy = Some row ∧ row !! Z.to_nat cx = Some v ∧
           get s cx cy = v.
Proof.
  intros Hv. destruct (is_valid_bounds _ _ _ Hv) as (row & Hrow & Hy & Hx).
  destruct (lookup_lt_is_Some_2 row (Z.to_nat cx)) as [v Hc];
    [unfold len in Hx; lia|].
  exists row, v. unfold get. rewrite Hv, Hrow. simpl. by rewrite Hc.
Qed.

Lemma get_put_cell s symbol cx cy a b :
  get (final (put symbol cx cy s)) a b =
  if is_valid s cx cy && (a =? cx) && (b =? cy) then symbol else get s a b.
Proof.
  unfold put, modify, final.
  destruct (is_valid s cx cy) eqn:Hv; [|done]. cbn [andb].
  set (s' := with_code _ s).
  assert (is_valid s' a b = is_valid s a b) as Hsame
    by apply is_valid_shape, alter_insert_shape.
  destruct (is_valid_bounds _ _ _ Hv) as (row & Hrow & Hy & Hx).
  destruct ((a =? cx) && (b =? cy)) eqn:E.
  - apply andb_true_iff in E as [->%Z.eqb_eq ->%Z.eqb_eq].
    unfold get. rewrite Hsame, Hv. subst s'. attrs.
    rewrite list_lookup_alter_eq, Hrow. simpl.
    rewrite list_lookup_insert_eq; [done|]. unfold len in Hx. lia.
  - unfold get. rewrite Hsame. destruct (is_valid s a b) eqn:Hab; [|done].
    destruct (is_valid_bounds _ _ _ Hab) as (row' & Hrow' & Hb & Ha).
    subst s'. attrs. rewrite list_lookup_alter.
    destruct (decide (Z.to_nat cy = Z.to_nat b)) as [Eq|Ne]; [|done].
    assert (cy = b) as -> by lia. rewrite Hrow. simpl.
    rewrite list_lookup_insert_ne; [done|].
    apply andb_false_iff in E as [E|E]; apply Z.eqb_neq in E; lia.
Qed.

(** X1: [put] then [get]: the written cell reads back the symbol, every other
    cell reads as before, and a [put] out of bounds changes no cell. *)
Theorem get_after_put s symbol cx cy a b :
  get (final (put symbol cx cy s)) a b =
  if is_valid s cx cy && (a =? cx) && (b =? cy) then symbol else get s a b.
Proof. apply get_put_cell. Qed.

Lemma cursor_cell_valid s :
  is_valid s (x s) (y s) = true → cursor_cell s = Ok (get s (x s) (y s)).
Proof.
  intros Hv. destruct (lookup_cell_valid _ _ _ Hv) as (row & v & Hr & Hc & ->).
  destruct (is_valid_bounds _ _ _ Hv) as (row' & Hr' & Hy & Hx).
  rewrite Hr in Hr'. injection Hr' as <-.
  assert (∀ {A} (l : list A) i a, 0 ≤ i < len l →
            l !! Z.to_nat i = Some a → py_index l i = Ok a) as Hidx.
  { intros A l i a Hi Ha. unfold py_index, py_pos.
    replace (i <? 0) with false by (symmetry; apply Z.ltb_ge; lia).
    replace ((0 <=? i) && (i <? len l)) with true; [simpl; by rewrite Ha|].
    symmetry. apply andb_true_iff.
    split; [apply Z.leb_le|apply Z.ltb_lt]; lia. }
  unfold cursor_cell. rewrite (Hidx _ _ _ _ Hy Hr). by apply Hidx.
Qed.

(** X2: [new_line] adds one row below the grid, [COLUMNS] spaces wide, and
    leaves every existing cell as it was. *)
Theorem new_line_appends s a b :
  len (code (final (new_line s))) = len (code s) + 1 ∧
  get (final (new_line s)) a b =
    if b =? len (code s)
    then if (0 <=? a) && (a <? COLUMNS) then VInt 32 else VNone
    else get s a b.
Proof.
  unfold new_line, modify, final. set (blank := replicate _ _).
  assert (length blank = 80%nat) as Hblank by done.
  split; [attrs; unfold len; rewrite length_app; simpl; lia|].
  unfold get, is_valid, len. attrs. rewrite length_app. cbn [length].
  destruct (b =? _) eqn:Eb.
  - apply Z.eqb_eq in Eb as ->. rewrite Nat2Z.id.
    rewrite list_lookup_middle by done. cbn [mbind option_bind].
    rewrite Hblank.
    replace (0 <=? Z.of_nat (length (code s))) with true
      by (symmetry; apply Z.leb_le; lia).
    replace (Z.of_nat (length (code s)) <?
             Z.of_nat (length (code s) + 1)) with true
      by (symmetry; apply Z.ltb_lt; lia).
    cbn [andb]. change (Z.of_nat 80) with COLUMNS.
    destruct ((0 <=? a) && (a <? COLUMNS)) eqn:Ea; [|done].
    apply andb_true_iff in Ea as [Ea1%Z.leb_le Ea2%Z.ltb_lt].
    subst blank. rewrite lookup_replicate_2; [done|].
    unfold COLUMNS in *. lia.
  - apply Z.eqb_neq in Eb.
    destruct (0 <=? b) eqn:E0; [|done]. apply Z.leb_le in E0. cbn [andb].
    destruct (b <? Z.of_nat (length (code s))) eqn:E1.
    + apply Z.ltb_lt in E1.
      replace (b <? Z.of_nat (length (code s) + 1)) with true
        by (symmetry; apply Z.ltb_lt; lia).
      by rewrite lookup_app_l by lia.
    + apply Z.ltb_ge in E1.
      replace (b <? Z.of_nat (length (code s) + 1)) with false; [done|].
      symmetry. apply Z.ltb_ge. lia.
Qed.

(** ** Invariants of the public methods *)

(** Break a method into its calls: a call for which a rule is among the
    hypotheses is closed by it, an assignment is left to [tac], and the
    remaining methods are opened by [open]. *)
Ltac keeps_core open tac :=
  repeat first
    [ assumption
    | match goal with
      | H : ∀ _, keeps _ _ |- _ => apply H
      | H : ∀ _ _, keeps _ _ |- _ => apply H
      | H : ∀ _ _ _, keeps _ _ |- _ => apply H
      | |- keeps _ (ret _) => apply keeps_ret
      | |- keeps _ (gets _) => apply keeps_gets
      | |- keeps _ (lift _) => apply keeps_lift
      | |- keeps _ (bind _ _) => apply keeps_bind; [|intros ?]
      | |- keeps _ (if _ then _ else _) => apply keeps_if
      | |- keeps _ (modify _) => apply keeps_modify; intros ? ?; tac
      | |- keeps _ (match ?q with _ => _ end) => destruct q
      end
    | open ].

Ltac open_methods :=
  progress unfold step, blocked, done, instruction, dispatch,
    _get_above, _get_below, _delete, _duplicate, _add, _subtract, pop, push,
    stack_top, set_error, _jump, jump_with, reset, new_line.

Ltac open_units :=
  first
    [ progress unfold _print, _put_above, _put_below, input_char
    | progress unfold _move, put, set_direction, _rotate ].

Ltac keeps_go tac := keeps_core ltac:(first [open_methods | open_units]) tac.

(** An assignment that does not touch what the invariant reads. *)
Ltac frame :=
  repeat match goal with
  | |- context [if ?b then _ else _] => destruct b
  end;
  try done.

Lemma keeps_jump_scan_gen P :
  keeps P _move →
  keeps P (set_error (py "jumped out of bounds")) →
  ∀ budget, keeps P (jump_scan budget).
Proof.
  intros Hmove Herr budget.
  induction budget as [|budget IH]; [apply keeps_timeout|].
  cbn [jump_scan]. keeps_go idtac.
Qed.

Lemma keeps_input_string_gen P :
  (∀ char, keeps P (input_char char)) →
  ∀ string, keeps P (input_string string).
Proof.
  intros Hchar string.
  induction string as [|c string IH]; [apply keeps_ret|].
  cbn [input_string]. keeps_go idtac.
Qed.

Lemma keeps_after P :
  (∀ c, keeps P (perform c)) →
  ∀ calls s, P s → P (after calls s).
Proof.
  intros Hc calls. unfold after.
  induction calls as [|c calls IH]; intros s Hs; [done|].
  simpl. apply IH. by apply Hc.
Qed.

(** *** The pointer under editing *)

Lemma origin_step batch :
  keeps (λ s, code s = [] → x s = 0 ∧ y s = 0) (step batch).
Proof.
  assert (keeps (λ s, code s = [] → x s = 0 ∧ y s = 0) _move) as Hmove.
  { intros s Hs. rewrite _move_eq. destruct (_ && _); [done|].
    destruct (is_valid s (x s + dx s) (y s + dy s)) eqn:E; [|done].
    simpl. intros Hc. unfold is_valid in E. rewrite Hc in E.
    by rewrite andb_false_r in E. }
  assert (∀ v cx cy,
    keeps (λ s, code s = [] → x s = 0 ∧ y s = 0) (put v cx cy)) as Hput.
  { intros v cx cy s Hs. unfold put, modify, final.
    destruct (is_valid s cx cy); [|done]. attrs. intros Hc. apply Hs.
    apply (f_equal length) in Hc. rewrite length_alter in Hc.
    by destruct (code s). }
  pose proof (keeps_jump_scan_gen _ Hmove) as Hscan.
  keeps_go ltac:(try done).
Qed.

Lemma keeps_and {A} (P Q : State → Prop) (m : M A) :
  keeps P m → keeps Q m → keeps (λ s, P s ∧ Q s) m.
Proof. intros HP HQ s [? ?]. split; [by apply HP|by apply HQ]. Qed.

Lemma is_valid_origin s row rows :
  code s = row :: rows → len row = COLUMNS → is_valid s 0 0 = true.
Proof.
  intros Hc Hr. unfold is_valid. rewrite Hc.
  change ((row :: rows) !! Z.to_nat 0) with (Some row). cbv beta iota.
  rewrite Hr. unfold len. cbn [length].
  apply andb_true_iff. split; [|done].
  apply andb_true_iff. split; [done|]. apply Z.ltb_lt. lia.
Qed.

Lemma is_valid_app s rows cx cy :
  is_valid s cx cy = true →
  is_valid (with_code (code s ++ rows) s) cx cy = true.
Proof.
  intros Hv. destruct (is_valid_bounds _ _ _ Hv) as (r & Hr & Hy & Hx).
  unfold is_valid, len in *. attrs. rewrite length_app.
  rewrite lookup_app_l by (by apply lookup_lt_Some in Hr). rewrite Hr.
  apply andb_true_iff. split.
  - apply andb_true_iff. split; [apply Z.leb_le|apply Z.ltb_lt]; lia.
  - apply andb_true_iff. split; [apply Z.leb_le|apply Z.ltb_lt]; lia.
Qed.

Lemma sound_perform c : keeps sound (perform c).
Proof.
  destruct c as [batch|char|string| |symbol cx cy|]; cbn [perform].
  - apply keeps_and; [apply keeps_step|apply origin_step].
  - apply keeps_and; [apply keeps_input_char|]. keeps_go ltac:(try done).
  - apply keeps_and; [apply keeps_input_string|].
    apply keeps_input_string_gen. intros char. keeps_go ltac:(try done).
  - intros s [[Hrows Hptr] _]. unfold reset, modify, final.
    split; [split|done]; attrs; [done|]. intros Hne.
    destruct (code s) as [|row rows] eqn:Hc; [done|].
    apply (is_valid_origin _ row rows); [done|].
    by apply Forall_cons in Hrows as [? _].
  - apply keeps_and; [apply keeps_put|].
    intros s Hs. unfold put, modify, final.
    destruct (is_valid s cx cy); [|done]. attrs. intros Hc. apply Hs.
    apply (f_equal length) in Hc. rewrite length_alter in Hc.
    by destruct (code s).
  - intros s [[Hrows Hptr] Horigin]. unfold new_line, modify, final.
    set (blank := replicate _ _).
    assert (len blank = COLUMNS) as Hblank by done.
    split; [split|]; attrs.
    + apply Forall_app. split; [done|]. by apply Forall_singleton.
    + intros _. destruct (code s) as [|row rows] eqn:Hc.
      * destruct Horigin as [-> ->]; [done|].
        by apply (is_valid_origin _ blank []).
      * rewrite <- Hc. apply is_valid_app. by apply Hptr.
    + intros Hc. by destruct (code s).
Qed.

Lemma sound_after lines calls : sound (after calls (init lines)).
Proof.
  apply keeps_after; [apply sound_perform|].
  split; [apply well_formed_init|done].
Qed.

Lemma pointer_on_edits lines calls :
  code (after calls (init lines)) ≠ [] →
  is_valid (after calls (init lines))
    (x (after calls (init lines))) (y (after calls (init lines))) = true ∧
  ∃ b, blocked (after calls (init lines)) = Ret b (after calls (init lines)).
Proof.
  intros Hne. destruct (sound_after lines calls) as [[_ Hptr] _].
  specialize (Hptr Hne). split; [done|].
  rewrite blocked_spec. unfold is_blocked.
  rewrite (cursor_cell_valid _ Hptr). by eexists.
Qed.

(** X3: However a driver or an editor calls [step], [input_char],
    [input_string], [reset], [put] and [new_line] on a constructed
    interpreter, every row keeps [COLUMNS] cells and the pointer stays on
    the grid; [blocked] raises [IndexError] exactly when the grid has no
    row, and returns otherwise. *)
Theorem pointer_under_editing lines calls :
  let s := after calls (init lines) in
  sound s ∧
  (code s ≠ [] →
     is_valid s (x s) (y s) = true ∧ ∃ b, blocked s = Ret b s) ∧
  (code s = [] → blocked s = Raise IndexError s).
Proof.
  intros s. split; [apply sound_after|]. split.
  - apply pointer_on_edits.
  - intros Hc. rewrite blocked_spec. unfold is_blocked, cursor_cell.
    by rewrite Hc, py_index_nil.
Qed.

(** *** The direction *)

Lemma unit_direction_perform c : keeps unit_direction (perform c).
Proof.
  assert (keeps unit_direction (set_direction (-1) 0)) by (by intros s _).
  assert (keeps unit_direction (set_direction 1 0)) by (by intros s _).
  assert (keeps unit_direction (set_direction 0 (-1))) by (by intros s _).
  assert (keeps unit_direction (set_direction 0 1)) by (by intros s _).
  assert (∀ clockwise, keeps unit_direction (_rotate clockwise)) as Hrot.
  { intros [] s Hs; unfold unit_direction in *; simpl; lia. }
  assert (keeps unit_direction _move) as Hmove
    by keeps_go ltac:(try done).
  pose proof (keeps_jump_scan_gen _ Hmove) as Hscan.
  destruct c; cbn [perform];
    try (apply keeps_input_string_gen; intros ?); keeps_go frame.
Qed.

(** X4: The direction of a constructed interpreter is always the zero vector
    or one of the four unit vectors, whatever is called on it. *)
Theorem direction_is_cardinal lines calls :
  let s := after calls (init lines) in
  (dx s, dy s) ∈ [(0, 0); (-1, 0); (1, 0); (0, -1); (0, 1)].
Proof.
  intros s.
  assert (unit_direction s) as Hs
    by (apply keeps_after; [apply unit_direction_perform|done]).
  unfold unit_direction in Hs.
  assert (dx s = 0 ∧ dy s = 0 ∨ dx s = -1 ∧ dy s = 0 ∨ dx s = 1 ∧ dy s = 0 ∨
          dx s = 0 ∧ dy s = -1 ∨ dx s = 0 ∧ dy s = 1) as H by lia.
  destruct H as [[-> ->]|[[-> ->]|[[-> ->]|[[-> ->]|[-> ->]]]]];
    repeat constructor.
Qed.

(** *** The diagnostic *)

Lemma error_nonempty_perform c :
  keeps (λ s, error s ≠ Some []) (perform c).
Proof.
  pose proof (keeps_jump_scan_gen (λ s, error s ≠ Some [])) as Hscan.
  destruct c; cbn [perform];
    try (apply keeps_input_string_gen; intros ?);
    keeps_go ltac:(frame; attrs; simpl; discriminate).
Qed.

(** X5: [error] is never the empty string: on a constructed interpreter it is
    [None] or a diagnostic that counts as true, so that a machine whose
    pointer can be read is blocked as soon as [error] is set. *)
Theorem error_counts_as_true lines calls :
  let s := after calls (init lines) in
  (error s = None ∨ truthy (error s) = true) ∧
  (error s ≠ None → code s ≠ [] → blocked s = Ret true s).
Proof.
  intros s.
  assert (error s ≠ Some []) as He
    by (apply keeps_after; [apply error_nonempty_perform|done]).
  assert (error s = None ∨ truthy (error s) = true) as Ht.
  { destruct (error s) as [[|c msg]|]; [done|by right|by left]. }
  split; [done|]. intros Hset Hne.
  destruct (pointer_on_edits lines calls Hne) as [Hv _].
  fold s in Hv. rewrite blocked_spec. unfold is_blocked.
  rewrite (cursor_cell_valid _ Hv). destruct Ht as [Ht|Ht]; [done|].
  by rewrite Ht, orb_true_r.
Qed.

(** *** The input queue *)

Ltac open_but_input :=
  first
    [ progress unfold step, blocked, done, instruction, dispatch,
        _get_above, _get_below, _print, _delete, _duplicate, _add,
        _subtract, pop, push, stack_top, set_error, _jump, jump_with,
        new_line
    | progress unfold _move, put, set_direction, _rotate ].

Lemma waiting_perform c :
  keeps (λ s, needs_input s = true → stdin s = []) (perform c).
Proof.
  set (P := λ s, needs_input s = true → stdin s = []).
  assert (∀ v, keeps P (_put_above v)) as Habove
    by (intros v; keeps_go frame).
  assert (∀ v, keeps P (_put_below v)) as Hbelow
    by (intros v; keeps_go frame).
  assert (∀ char, keeps P (input_char char)) as Hchar by (by intros char s).
  assert (∀ put_there : value → M unit, (∀ v, keeps P (put_there v)) →
    keeps P (q ← gets stdin;
             match q with
             | v :: q' => modify (with_stdin q');; put_there v
             | [] => modify (with_needs_input true)
             end)) as Hinput.
  { intros put_there Hput s Hs. unfold bind at 1, gets.
    destruct (stdin s) as [|v q'] eqn:Hq; [by intros _|].
    rewrite final_bind. unfold modify. apply Hput.
    attrs. intros Hn. specialize (Hs Hn). by rewrite Hs in Hq. }
  pose proof (keeps_jump_scan_gen P) as Hscan.
  destruct c; cbn [perform];
    try (apply keeps_input_string_gen; intros ?);
    try (by intros s Hs);
    keeps_core open_but_input frame.
Qed.

(** X6: The machine waits for input only with an empty queue: whatever is
    called on a constructed interpreter, [needs_input] is set only while
    [stdin] is empty. *)
Theorem waits_only_on_empty_queue lines calls :
  needs_input (after calls (init lines)) = true →
  stdin (after calls (init lines)) = [].
Proof.
  apply (keeps_after (λ s, needs_input s = true → stdin s = []));
    [apply waiting_perform|done].
Qed.

Lemma waits_only_on_empty_queue_witness :
  needs_input (after [CallStep false] (init [py "G"])) = true ∧
  stdin (after [CallStep false] (init [py "G"])) = [].
Proof.
  split; [vm_compute; reflexivity|].
  apply waits_only_on_empty_queue. vm_compute. reflexivity.
Defined.

(** *** The output buffer *)

Lemma output_grows_perform out c :
  c ≠ CallReset →
  keeps (λ s, out `prefix_of` stdout s) (perform c).
Proof.
  intros Hc.
  pose proof (keeps_jump_scan_gen (λ s, out `prefix_of` stdout s)) as Hscan.
  destruct c; cbn [perform]; [..|done| |];
    try (apply keeps_input_string_gen; intros ?);
    keeps_go ltac:(frame; by apply prefix_app_r).
Qed.

(** X7: The output buffer is append-only: apart from [reset], no call removes
    or changes a character already in [stdout]. *)
Theorem output_append_only c s :
  c ≠ CallReset →
  stdout s `prefix_of` stdout (final (perform c s)).
Proof.
  intros Hc. by apply (output_grows_perform (stdout s) c Hc s).
Qed.

Lemma output_append_only_witness :
  stdout (init [py "l"]) `prefix_of`
    stdout (final (perform (CallStep true) (init [py "l"]))).
Proof. apply output_append_only. discriminate. Defined.

(** *** Batch mode *)




(** ** What each instruction does *)

(** A step whose instruction returned and left the machine unblocked ends
    with the move. *)
Lemma step_via_dispatch batch s a s1 :
  is_blocked s = Ok false →
  cursor_cell s = Ok (VInt (ord (lit a))) →
  32 ≤ ord (lit a) ≤ 126 →
  dispatch batch (lit a) s = Ret tt s1 →
  step batch s = advance s1.
Proof.
  intros Hb Hc Hp Hd. rewrite (step_printable _ _ _ Hb Hc Hp).
  unfold bind. by rewrite Hd.
Qed.

Lemma advance_unblocked s s1 :
  is_blocked s = Ok false →
  code s1 = code s → x s1 = x s → y s1 = y s →
  error s1 = error s → needs_input s1 = needs_input s →
  advance s1 = Ret tt (final (_move s1)).
Proof.
  intros Hb H1 H2 H3 H4 H5.
  by rewrite advance_eq, (is_blocked_frame s s1), Hb.
Qed.

(** X9: [h], [l], [k], [j]: the direction is set, then the pointer moves one
    cell that way, or stays with the out-of-bounds diagnostic when that
    cell is off the grid. *)
Theorem step_direction batch s a d :
  (a, d) ∈ direction_instructions →
  blocked s = Ret false s →
  instruction s = Ret (VInt (ord (lit a))) s →
  step batch s =
    Ret tt
      (if is_valid s (x s + d.1) (y s + d.2)
       then with_y (y s + d.2) (with_x (x s + d.1)
              (with_dy d.2 (with_dx d.1 s)))
       else with_error (Some (py "moved out of bounds"))
              (with_dy d.2 (with_dx d.1 s))).
Proof.
  intros Ha [Hb _]%blocked_Ret [Hc _]%instruction_Ret.
  unfold direction_instructions in Ha.
  repeat (apply elem_of_cons in Ha as [[= -> ->] | Ha]);
    [..|by apply elem_of_nil in Ha];
    (erewrite step_via_dispatch;
       [|done|done|vm_compute; split; discriminate
        |dispatch_eval; msimpl; reflexivity]);
    (erewrite (advance_unblocked s); [|done|reflexivity..]);
    rewrite _move_eq; attrs; cbn [fst snd andb Z.eqb];
    match goal with
    | |- context [is_valid (with_dy ?b (with_dx ?a s)) ?u ?v] =>
        change (is_valid (with_dy b (with_dx a s)) u v) with (is_valid s u v)
    end;
    by destruct (is_valid s _ _).
Qed.

Lemma step_direction_witness :
  step false (init [py "lq"]) =
    Ret tt (with_x 1 (with_dx 1 (init [py "lq"]))).
Proof.
  rewrite (step_direction false (init [py "lq"]) "l" (1, 0)).
  - vm_compute. reflexivity.
  - apply list_elem_of_further, list_elem_of_here.
  - vm_compute. reflexivity.
  - vm_compute. reflexivity.
Defined.

(** X10: Any other printable symbol: the invalid-instruction diagnostic names
    it, and nothing else changes. *)
Theorem step_unknown_instruction batch s c :
  blocked s = Ret false s →
  instruction s = Ret (VInt (ord c)) s →
  32 ≤ ord c ≤ 126 →
  Forall (λ a, ord c ≠ ord (lit a)) alphabet →
  step batch s =
    Ret tt (with_error (Some (py "invalid instruction: " ++ [c])) s).
Proof.
  intros [Hb _]%blocked_Ret [Hc _]%instruction_Ret Hp Hall.
  rewrite (step_printable _ _ _ Hb Hc Hp). unfold dispatch.
  repeat match goal with
  | |- context [eqc c ?a] =>
      replace (eqc c a) with false
        by (symmetry; apply Z.eqb_neq;
            apply (proj1 (Forall_forall _ _) Hall a);
            unfold alphabet; simpl; repeat constructor)
  end.
  msimpl. cbn [andb negb].
  erewrite (advance_error s); [reflexivity|done|reflexivity..|done].
Qed.

Lemma step_unknown_instruction_witness :
  step false (init [py "z"]) =
    Ret tt (with_error (Some (py "invalid instruction: z")) (init [py "z"])).
Proof.
  rewrite (step_unknown_instruction false (init [py "z"]) (lit "z")).
  - reflexivity.
  - vm_compute. reflexivity.
  - vm_compute. reflexivity.
  - vm_compute. split; discriminate.
  - unfold alphabet. simpl.
    repeat (apply Forall_cons; split; [vm_compute; discriminate|]).
    constructor.
Defined.

(** X11: [#]: at the origin with [!] to its right it acts as [j]; anywhere else
    it is an invalid instruction. *)
Theorem step_hash batch s :
  blocked s = Ret false s →
  instruction s = Ret (VInt (ord (lit "#"))) s →
  step batch s =
    Ret tt
      (if (x s =? 0) && (y s =? 0) &&
          py_eq (get s 1 0) (VInt (ord (lit "!")))
       then
         if is_valid s (x s + 0) (y s + 1)
         then with_y (y s + 1) (with_x (x s + 0) (with_dy 1 (with_dx 0 s)))
         else with_error (Some (py "moved out of bounds"))
                (with_dy 1 (with_dx 0 s))
       else with_error (Some (py "invalid instruction: #")) s).
Proof.
  intros [Hb _]%blocked_Ret [Hc _]%instruction_Ret.
  rewrite (step_printable _ _ _ Hb Hc) by (vm_compute; split; discriminate).
  dispatch_eval. msimpl. cbn [andb negb].
  destruct (_ && _).
  - erewrite (advance_unblocked s); [|done|reflexivity..].
    rewrite _move_eq. attrs. cbn [andb Z.eqb].
    change (is_valid (with_dy 1 (with_dx 0 s)) (x s + 0) (y s + 1))
      with (is_valid s (x s + 0) (y s + 1)).
    by destruct (is_valid s _ _).
  - erewrite (advance_error s); [reflexivity|done|reflexivity..|done].
Qed.

Lemma step_hash_witness :
  step false (init [py "#!"; py "q"]) =
    Ret tt (with_y 1 (with_dy 1 (init [py "#!"; py "q"]))).
Proof.
  rewrite (step_hash false (init [py "#!"; py "q"])).
  - vm_compute. reflexivity.
  - vm_compute. reflexivity.
  - vm_compute. reflexivity.
Defined.

Lemma chr_in_range i :
  in_chr_range i = true → ∃ c, chr (VInt i) = Ok c ∧ ord c = i.
Proof.
  intros Hr. exists (PyChar i Hr). split; [|done].
  apply (chr_ord (PyChar i Hr)).
Qed.

Lemma chr_out_of_range i :
  in_chr_range i = false → chr (VInt i) = Err ValueError.
Proof.
  intros Hr. unfold chr. destruct (bool_dec _ _); [congruence|done].
Qed.




Lemma py_setitem_last {A} (l : list A) a b :
  py_setitem (l ++ [a]) (-1) b = Ok (l ++ [b]).
Proof.
  unfold py_setitem. rewrite py_pos_last. f_equal.
  by rewrite insert_app_r_alt, Nat.sub_diag by done.
Qed.

Lemma py_pop_snoc {A} (l : list A) a : py_pop (l ++ [a]) = Ok (a, l).
Proof. unfold py_pop. by rewrite last_snoc, removelast_last. Qed.

(** X13: [A], [a], [R], [r]: with integers on top of the stack and in the
    operand cell, the top becomes their sum or difference and the pointer
    moves; with [None] in either place (an operand cell off the grid) the
    step raises [TypeError] and leaves the object as it was. *)
Theorem step_arithmetic batch s a o op rest top :
  (a, (o, op)) ∈ arithmetic_instructions →
  blocked s = Ret false s →
  instruction s = Ret (VInt (ord (lit a))) s →
  stack s = rest ++ [top] →
  match top, get s (x s) (y s + o) with
  | VInt t, VInt c =>
      step batch s =
        Ret tt (final (_move (with_stack (rest ++ [VInt (op t c)]) s)))
  | _, _ => step batch s = Raise TypeError s
  end.
Proof.
  intros Ha [Hb _]%blocked_Ret [Hc _]%instruction_Ret Hs.
  unfold arithmetic_instructions in Ha.
  repeat (apply elem_of_cons in Ha as [[= -> -> ->] | Ha]);
    [..|by apply elem_of_nil in Ha];
    (rewrite (step_printable _ _ _ Hb Hc)
       by (vm_compute; split; discriminate));
    dispatch_eval; unfold _get_above, _get_below, _add, _subtract; msimpl;
    change (y s - 1) with (y s + -1);
    rewrite Hs, nonempty_snoc; cbv beta iota;
    rewrite (stack_top_snoc _ _ _ Hs);
    (destruct top as [|t]; [done|]);
    (destruct (get s (x s) (y s + _)) as [|c]; [done|]);
    cbn [py_add py_sub]; rewrite py_setitem_last;
    by erewrite (advance_unblocked s).
Qed.

(** After three steps of [j !] / [lSR] the pointer is on [R], the stack
    holds 32 and the cell above holds 33. *)
Lemma step_arithmetic_witness :
  let s := run 3 (init [py "j !"; py "lSR"]) in
  step false s = Ret tt (final (_move (with_stack [VInt (-1)] s))).
Proof.
  intros s.
  assert (("R", (-1, Z.sub))%char ∈ arithmetic_instructions) as Hin
    by (unfold arithmetic_instructions; repeat constructor).
  assert (blocked s = Ret false s) as Hb by (vm_compute; reflexivity).
  assert (instruction s = Ret (VInt (ord (lit "R"))) s) as Hi
    by (vm_compute; reflexivity).
  assert (stack s = [] ++ [VInt 32]) as Hs by (vm_compute; reflexivity).
  pose proof (step_arithmetic false s "R" (-1) Z.sub [] (VInt 32)
                Hin Hb Hi Hs) as H.
  vm_compute in H. vm_compute. exact H.
Defined.

(** X14: [D] pops the top of the stack, [d] pushes a copy of it; then the
    pointer moves. *)
Theorem step_delete_duplicate batch s a rest top :
  blocked s = Ret false s →
  instruction s = Ret (VInt (ord (lit a))) s →
  stack s = rest ++ [top] →
  (a = "D"%char →
   step batch s = Ret tt (final (_move (with_stack rest s)))) ∧
  (a = "d"%char →
   step batch s = Ret tt (final (_move (with_stack (rest ++ [top; top]) s)))).
Proof.
  intros [Hb _]%blocked_Ret [Hc _]%instruction_Ret Hs.
  split; intros ->;
    (rewrite (step_printable _ _ _ Hb Hc)
       by (vm_compute; split; discriminate));
    dispatch_eval; unfold _delete, _duplicate, pop, push; msimpl;
    (replace (nonempty (stack s)) with true
       by (by rewrite Hs, nonempty_snoc));
    cbv beta iota; rewrite ?(stack_top_snoc _ _ _ Hs); cbv beta iota;
    rewrite ?Hs, ?py_pop_snoc; cbv beta iota; attrs;
    rewrite <- ?(assoc_L (++)); cbn [app];
    by erewrite (advance_unblocked s).
Qed.

Lemma step_delete_duplicate_witness :
  let s := run 3 (init [py "j !"; py "lSd"]) in
  step false s = Ret tt (final (_move (with_stack [VInt 32; VInt 32] s))).
Proof.
  intros s.
  assert (blocked s = Ret false s) as Hb by (vm_compute; reflexivity).
  assert (instruction s = Ret (VInt (ord (lit "d"))) s) as Hi
    by (vm_compute; reflexivity).
  assert (stack s = [] ++ [VInt 32]) as Hs by (vm_compute; reflexivity).
  destruct (step_delete_duplicate false s "d" [] (VInt 32) Hb Hi Hs)
    as [_ H].
  apply H. reflexivity.
Defined.

(** X15: [S] and [s] push whatever [get] answers for the cell above or below,
    [None] included, then the pointer moves. *)
Theorem step_push batch s a o :
  (a, o) ∈ above_below "S" "s" →
  blocked s = Ret false s →
  instruction s = Ret (VInt (ord (lit a))) s →
  step batch s =
    Ret tt
      (final (_move (with_stack (stack s ++ [get s (x s) (y s + o)]) s))).
Proof.
  intros Ha [Hb _]%blocked_Ret [Hc _]%instruction_Ret.
  unfold above_below in Ha.
  repeat (apply elem_of_cons in Ha as [[= -> ->] | Ha]);
    [..|by apply elem_of_nil in Ha];
    (rewrite (step_printable _ _ _ Hb Hc)
       by (vm_compute; split; discriminate));
    dispatch_eval; unfold _get_above, _get_below, push; msimpl;
    by erewrite (advance_unblocked s).
Qed.

Lemma step_push_witness :
  let s := run 2 (init [py "j !"; py "ls"]) in
  step false s =
    Ret tt (final (_move (with_stack (stack s ++ [get s 1 2]) s))).
Proof.
  intros s. apply (step_push false s "s" 1).
  - apply list_elem_of_further, list_elem_of_here.
  - vm_compute. reflexivity.
  - vm_compute. reflexivity.
Defined.

(** Writing a cell in another row leaves the machine as blocked as it
    was. *)
Lemma is_blocked_put s s0 v cx o :
  is_valid s (x s) (y s) = true →
  o ≠ 0 →
  code s0 = code s → x s0 = x s → y s0 = y s →
  error s0 = error s → needs_input s0 = needs_input s →
  is_blocked (final (put v cx (y s + o) s0)) = is_blocked s.
Proof.
  intros Hv Ho H1 H2 H3 H4 H5.
  set (s1 := final (put v cx (y s + o) s0)).
  assert (x s1 = x s ∧ y s1 = y s ∧ error s1 = error s ∧
          needs_input s1 = needs_input s ∧
          length <$> code s1 = length <$> code s) as (E1 & E2 & E3 & E4 & E5).
  { subst s1. unfold put, modify, final.
    destruct (is_valid s0 cx (y s + o)); attrs;
      rewrite ?alter_insert_shape, H1; done. }
  assert (is_valid s0 (x s) (y s) = true) as Hv0
    by (by rewrite (is_valid_shape s s0) by (by rewrite H1)).
  unfold is_blocked.
  rewrite (cursor_cell_valid s Hv), <- E1, <- E2, cursor_cell_valid
    by (by rewrite E1, E2, (is_valid_shape s s1)).
  rewrite E1, E2, E3, E4. subst s1. rewrite get_put_cell.
  replace (y s =? y s + o) with false by (symmetry; apply Z.eqb_neq; lia).
  rewrite andb_false_r. unfold get.
  by rewrite (is_valid_shape s s0), H1 by (by rewrite H1).
Qed.

Lemma put_Ret v cx cy s : put v cx cy s = Ret tt (final (put v cx cy s)).
Proof. done. Qed.

(** X16: [F] and [f] pop the top of the stack into the cell above or below (a
    cell off the grid is not written and the value is lost); [E] and [e]
    write the end-of-input code there; then the pointer moves. *)
Theorem step_write_cell batch s a o :
  is_valid s (x s) (y s) = true →
  blocked s = Ret false s →
  instruction s = Ret (VInt (ord (lit a))) s →
  ((a, o) ∈ above_below "F" "f" →
   ∀ rest top, stack s = rest ++ [top] →
     step batch s =
       Ret tt (final (_move (final (put top (x s) (y s + o)
                                      (with_stack rest s)))))) ∧
  ((a, o) ∈ above_below "E" "e" →
   step batch s =
     Ret tt (final (_move (final (put (VInt EOT) (x s) (y s + o) s))))).
Proof.
  intros Hv [Hb _]%blocked_Ret [Hc _]%instruction_Ret.
  unfold above_below. split.
  - intros Ha rest top Hs.
    repeat (apply elem_of_cons in Ha as [[= -> ->] | Ha]);
      [..|by apply elem_of_nil in Ha];
      (rewrite (step_printable _ _ _ Hb Hc)
         by (vm_compute; split; discriminate));
      dispatch_eval; unfold pop, _put_above, _put_below; msimpl;
      (replace (nonempty (stack s)) with true
         by (by rewrite Hs, nonempty_snoc));
      cbv beta iota; rewrite Hs, py_pop_snoc; cbv beta iota; attrs;
      change (y s - 1) with (y s + -1); rewrite put_Ret;
      by rewrite advance_eq, is_blocked_put, Hb.
  - intros Ha.
    repeat (apply elem_of_cons in Ha as [[= -> ->] | Ha]);
      [..|by apply elem_of_nil in Ha];
      (rewrite (step_printable _ _ _ Hb Hc)
         by (vm_compute; split; discriminate));
      dispatch_eval; unfold _put_above, _put_below; msimpl;
      change (y s - 1) with (y s + -1); rewrite put_Ret;
      by rewrite advance_eq, is_blocked_put, Hb.
Qed.

Lemma step_write_cell_witness :
  let s := run 3 (init [py "j !"; py "lSF"]) in
  step false s =
    Ret tt (final (_move (final (put (VInt 32) 2 0 (with_stack [] s))))).
Proof.
  intros s.
  destruct (step_write_cell false s "F" (-1)) as [H _].
  - vm_compute. reflexivity.
  - vm_compute. reflexivity.
  - vm_compute. reflexivity.
  - apply (H (list_elem_of_here _ _) [] (VInt 32)). vm_compute. reflexivity.
Defined.

(** X17: [G] and [g]: with a queued input, its first code is taken off the
    queue and written to the cell above or below (lost when that cell is
    off the grid), then the pointer moves; with an empty queue the only
    change is that [needs_input] is set. *)
Theorem step_input batch s a o :
  (a, o) ∈ above_below "G" "g" →
  is_valid s (x s) (y s) = true →
  blocked s = Ret false s →
  instruction s = Ret (VInt (ord (lit a))) s →
  match stdin s with
  | v :: q =>
      step batch s =
        Ret tt (final (_move (final (put v (x s) (y s + o)
                                       (with_stdin q s)))))
  | [] => step batch s = Ret tt (with_needs_input true s)
  end.
Proof.
  intros Ha Hv [Hb _]%blocked_Ret [Hc _]%instruction_Ret.
  unfold above_below in Ha.
  repeat (apply elem_of_cons in Ha as [[= -> ->] | Ha]);
    [..|by apply elem_of_nil in Ha];
    (rewrite (step_printable _ _ _ Hb Hc)
       by (vm_compute; split; discriminate));
    dispatch_eval; unfold _put_above, _put_below; msimpl;
    (destruct (stdin s) as [|v q];
      [rewrite advance_eq; unfold is_blocked;
       change (cursor_cell (with_needs_input true s)) with (cursor_cell s);
       rewrite Hc; attrs; by rewrite orb_true_r
      |attrs; change (y s - 1) with (y s + -1); rewrite put_Ret;
       by rewrite advance_eq, is_blocked_put, Hb]).
Qed.

Lemma step_input_witness :
  let s := final (input_char (VInt 65) (run 1 (init [py "j"; py "G"]))) in
  step false s =
    Ret tt (final (_move (final (put (VInt 65) 0 0 (with_stdin [] s))))).
Proof.
  intros s. apply (step_input false s "G" (-1)).
  - apply list_elem_of_here.
  - vm_compute. reflexivity.
  - vm_compute. reflexivity.
  - vm_compute. reflexivity.
Defined.

(** ** Feeding input *)

(** X18: [input_string] queues the codes of the string behind what is already
    queued, in order, and clears [needs_input]; the empty string changes
    nothing, [needs_input] included. *)
Theorem input_string_queues string s :
  input_string string s =
    Ret tt
      match string with
      | [] => s
      | _ :: _ =>
          with_needs_input false
            (with_stdin (stdin s ++ ((VInt ∘ ord) <$> string)) s)
      end.
Proof.
  revert s. induction string as [|c string IH]; intros s; [done|].
  cbn [input_string]. unfold bind, input_char at 1, modify, bind.
  rewrite IH. f_equal. destruct string as [|c' string]; [done|].
  unfold with_needs_input, with_stdin. simpl.
  by rewrite <- (assoc_L (++)).
Qed.

(** ** Rendering codes *)

Lemma str_digit c : 0 ≤ c ≤ 9 → ∃ d, str c = [d].
Proof.
  intros Hc.
  assert (c = 0 ∨ c = 1 ∨ c = 2 ∨ c = 3 ∨ c = 4 ∨ c = 5 ∨ c = 6 ∨ c = 7 ∨
          c = 8 ∨ c = 9) as H by lia.
  repeat destruct H as [->|H]; try subst c; by eexists.
Qed.

(** X19: In short mode [to_printable] renders every integer by exactly one
    character, and in both modes a printable code is rendered by its own
    character; [None] raises [TypeError]. *)
Theorem to_printable_one_cell i :
  (∃ c, to_printable (VInt i) false = Ok [c]) ∧
  (∀ long, 32 ≤ i ≤ 126 →
     ∃ c, ord c = i ∧ to_printable (VInt i) long = Ok [c]) ∧
  (∀ long, to_printable VNone long = Err TypeError).
Proof.
  split; [|split; [|done]].
  - unfold to_printable, is_printable. cbn [andb py_eq].
    destruct ((32 <=? i) && (i <=? 126)) eqn:Hp.
    + destruct (chr_in_range i) as (c & -> & _); [|by eexists].
      apply andb_true_iff in Hp as [H1%Z.leb_le H2%Z.leb_le].
      apply andb_true_iff. split; apply Z.leb_le; lia.
    + cbv zeta.
      destruct ((0 <=? i) && (i <=? 9)) eqn:Hd.
      { apply andb_true_iff in Hd as [H1%Z.leb_le H2%Z.leb_le].
        destruct (str_digit i) as [d ->]; [done|]. by eexists. }
      repeat match goal with
      | |- context [if ?b then _ else _] => destruct b
      end; by eexists.
  - intros long Hi. unfold to_printable, is_printable. cbn [andb py_eq].
    replace ((32 <=? i) && (i <=? 126)) with true
      by (symmetry; apply andb_true_iff; split; apply Z.leb_le; lia).
    destruct (chr_in_range i) as (c & -> & Hc); [|by exists c].
    apply andb_true_iff. split; apply Z.leb_le; lia.
Qed.

(** ** Rotations *)

(** X20: A rotation one way undoes a rotation the other way, four rotations the
    same way give back the direction, and nothing but the direction is
    touched. *)
Theorem rotate_composes clockwise s :
  let back := final (_rotate (negb clockwise) (final (_rotate clockwise s))) in
  let round := Nat.iter 4 (λ s, final (_rotate clockwise s)) s in
  (dx back, dy back) = (dx s, dy s) ∧
  (dx round, dy round) = (dx s, dy s) ∧
  with_dy 0 (with_dx 0 (final (_rotate clockwise s))) =
    with_dy 0 (with_dx 0 s).
Proof.
  destruct clockwise; simpl; rewrite ?Z.opp_involutive; done.
Qed.

(** ** Exporting any grid *)

Lemma row_to_string_chr_able row :
  if forallb chr_able row
  then ∃ r, row_to_string row = Ok r ∧ (VInt ∘ ord) <$> r = row
  else ∃ e, row_to_string row = Err e.
Proof.
  induction row as [|v row IH]; [by exists []|].
  cbn [forallb row_to_string].
  destruct v as [|i]; [by eexists|]. cbn [chr_able andb].
  destruct (in_chr_range i) eqn:Hr.
  - destruct (chr_in_range i Hr) as (c & -> & Hc). cbn [andb].
    destruct (forallb chr_able row).
    + destruct IH as (r & -> & Hrow). exists (c :: r).
      split; [done|]. rewrite fmap_cons. simpl. by rewrite Hc, <- Hrow.
    + destruct IH as [e ->]. by eexists.
  - rewrite (chr_out_of_range i Hr). by eexists.
Qed.

Lemma init_row_full (r : pystr) :
  len r = COLUMNS → init_row r = (VInt ∘ ord) <$> r.
Proof.
  intros Hr. unfold init_row. apply list_eq. intros i.
  rewrite !list_lookup_fmap.
  destruct (decide (i < Z.to_nat COLUMNS)%nat) as [Hi|Hi].
  - rewrite lookup_seq_lt by done. simpl.
    destruct (lookup_lt_is_Some_2 r i) as [c Hc];
      [unfold len in Hr; lia|].
    by rewrite Hc.
  - rewrite lookup_seq_ge by lia.
    rewrite (lookup_ge_None_2 r i) by (unfold len in Hr; lia). done.
Qed.

Lemma rows_to_strings_chr_able rows :
  if forallb (forallb chr_able) rows
  then ∃ rs, rows_to_strings rows = Ok rs ∧
             ords <$> rs = rows
  else ∃ e, rows_to_strings rows = Err e.
Proof.
  induction rows as [|row rows IH]; [by exists []|].
  cbn [forallb rows_to_strings].
  pose proof (row_to_string_chr_able row) as Hrow.
  destruct (forallb chr_able row); cbn [andb].
  - destruct Hrow as (r & -> & Hr).
    destruct (forallb (forallb chr_able) rows).
    + destruct IH as (rs & -> & Hrs). exists (r :: rs).
      split; [done|]. rewrite fmap_cons. unfold ords at 1. by rewrite Hr, Hrs.
    + destruct IH as [e ->]. by eexists.
  - destruct Hrow as [e ->]. by eexists.
Qed.

Lemma code_to_string_cases s :
  if forallb (forallb chr_able) (code s)
  then ∃ rows, code_to_string s = Ret rows s ∧
               (Forall (λ row, len row = COLUMNS) (code s) →
                code (init rows) = code s)
  else ∃ e, code_to_string s = Raise e s.
Proof.
  unfold code_to_string. msimpl.
  pose proof (rows_to_strings_chr_able (code s)) as H.
  destruct (forallb (forallb chr_able) (code s)).
  - destruct H as (rs & -> & Hrs). exists rs. split; [done|].
    intros Hfull. cbn [init code]. rewrite <- Hrs.
    apply list_fmap_ext. intros i r Hi. apply init_row_full.
    assert (ords <$> rs !! i = Some (ords r)) as Hi' by (by rewrite Hi).
    rewrite <- list_lookup_fmap, Hrs in Hi'.
    pose proof (Forall_lookup_1 _ _ _ _ Hfull Hi') as Hlen.
    unfold len, ords in *. by rewrite length_fmap in Hlen.
  - destruct H as [e ->]. by exists e.
Qed.

(** X21: [code_to_string] returns exactly when every cell holds a code that
    [chr] accepts, and raises otherwise (a cell made negative by
    arithmetic, or holding [None]), leaving the object as it was.  When it
    returns and every row has [COLUMNS] cells, the constructor rebuilds the
    same grid from the rows. *)
Theorem code_to_string_any_grid s :
  if forallb (forallb chr_able) (code s)
  then ∃ rows, code_to_string s = Ret rows s ∧
               (Forall (λ row, len row = COLUMNS) (code s) →
                code (init rows) = code s)
  else ∃ e, code_to_string s = Raise e s.
Proof. apply code_to_string_cases. Qed.

(** X22: [reset] amounts to constructing the interpreter anew from the exported
    grid: when [code_to_string] returns [rows] on a grid whose rows have
    [COLUMNS] cells, [reset] leaves the object that [ArghInterpreter(rows)]
    builds (the process's output apart). *)
Theorem reset_is_reconstruction s rows :
  code_to_string s = Ret rows s →
  Forall (λ row, len row = COLUMNS) (code s) →
  final (reset s) = with_sys_stdout (sys_stdout s) (init rows).
Proof.
  intros Hrows Hfull. pose proof (code_to_string_cases s) as H.
  destruct (forallb (forallb chr_able) (code s)).
  - destruct H as (rows' & Hrows' & Hcode). rewrite Hrows in Hrows'.
    injection Hrows' as <-. specialize (Hcode Hfull).
    unfold reset, modify, final, with_sys_stdout. cbn [init code] in *.
    attrs. by rewrite Hcode.
  - destruct H as [e He]. by rewrite Hrows in He.
Qed.

Lemma reset_is_reconstruction_witness :
  let s := run 2 (init [py "l"; py "q"]) in
  final (reset s) =
    with_sys_stdout (sys_stdout s) (init (padded <$> [py "l"; py "q"])).
Proof.
  intros s. apply reset_is_reconstruction.
  - vm_compute. reflexivity.
  - repeat constructor.
Defined.

(** [input_string] as a function of the object (shared with the theorem
    above). *)
Lemma input_string_fields string s :
  final (input_string string s) =
  match string with
  | [] => s
  | _ :: _ =>
      with_needs_input false (with_stdin (stdin s ++ ords string) s)
  end.
Proof.
  revert s. induction string as [|c string IH]; intros s; [done|].
  cbn [input_string]. rewrite final_bind. unfold input_char, bind, modify.
  rewrite IH. destruct string as [|c' string]; [done|].
  unfold with_needs_input, with_stdin, ords. simpl.
  by rewrite <- (assoc_L (++)).
Qed.

(** ** A halted machine *)

Lemma step_halted batch s :
  truthy (error s) = true ∨ cursor_cell s = Ok (VInt (ord (lit "q"))) →
  final (step batch s) = s.
Proof.
  intros H. rewrite step_eq. unfold is_blocked.
  destruct (cursor_cell s) as [v|e]; [|done].
  destruct H as [->|[= ->]]; [by rewrite orb_true_r|done].
Qed.

(** X23: Halting is for good: once a diagnostic is set, or the pointer is on
    [q], no [step], [input_char] or [input_string] changes the grid, the
    pointer, the direction, the stack, the output or the diagnostic. *)
Theorem halted_for_good s calls :
  truthy (error s) = true ∨ cursor_cell s = Ok (VInt (ord (lit "q"))) →
  forallb driver_call calls = true →
  let s' := after calls s in
  code s' = code s ∧ (x s', y s') = (x s, y s) ∧
  (dx s', dy s') = (dx s, dy s) ∧ stack s' = stack s ∧
  stdout s' = stdout s ∧ sys_stdout s' = sys_stdout s ∧
  error s' = error s.
Proof.
  intros Hhalt Hcalls.
  set (Q := λ s1 : State,
    code s1 = code s ∧ (x s1, y s1) = (x s, y s) ∧
    (dx s1, dy s1) = (dx s, dy s) ∧ stack s1 = stack s ∧
    stdout s1 = stdout s ∧ sys_stdout s1 = sys_stdout s ∧
    error s1 = error s).
  assert (∀ s1 c, Q s1 → driver_call c = true → Q (final (perform c s1)))
    as Hstep.
  { intros s1 c (H1 & [= H2 H3] & H4 & H5 & H6 & H7 & H8) Hc. unfold Q.
    destruct c as [batch|char|string| | |]; try done; cbn [perform].
    - rewrite step_halted; [by rewrite H2, H3|].
      unfold cursor_cell. by rewrite H1, H2, H3, H8.
    - simpl. by rewrite H2, H3.
    - rewrite input_string_fields.
      destruct string; attrs; by rewrite H2, H3. }
  assert (∀ s1, Q s1 → Q (after calls s1)) as Hall.
  { unfold after. induction calls as [|c calls IH]; intros s1 Hs1; [done|].
    cbn [forallb] in Hcalls. apply andb_true_iff in Hcalls as [Hc Hcalls].
    simpl. apply IH; [done|]. by apply Hstep. }
  apply Hall. unfold Q. repeat (split; [reflexivity|]). reflexivity.
Qed.

Lemma halted_for_good_witness :
  let s := init [py "q"] in
  let s' := after [CallStep false; CallInputChar (VInt 65); CallStep true] s in
  code s' = code s ∧ (x s', y s') = (x s, y s) ∧
  (dx s', dy s') = (dx s, dy s) ∧ stack s' = stack s ∧
  stdout s' = stdout s ∧ sys_stdout s' = sys_stdout s ∧
  error s' = error s.
Proof.
  apply halted_for_good.
  - right. vm_compute. reflexivity.
  - reflexivity.
Defined.

(** ** Where a jump lands *)

Lemma get_same_code s s' a b : code s' = code s → get s' a b = get s a b.
Proof. intros H. unfold get, is_valid. by rewrite H. Qed.

Lemma is_valid_same_code s s' a b :
  code s' = code s → is_valid s' a b = is_valid s a b.
Proof. intros H. unfold is_valid. by rewrite H. Qed.

(** The loop stops on the first cell, from the pointer on, that equals the
    top of the stack, or at the last cell before the edge. *)
Lemma jump_scan_nearest n : ∀ s rest top,
  is_valid s (x s) (y s) = true →
  stack s = rest ++ [top] →
  (remaining s ≤ n)%nat →
  (dx s =? 0) && (dy s =? 0) = false →
  ∃ (k : nat) s',
    jump_scan n s = Ret tt s' ∧
    x s' = x s + Z.of_nat k * dx s ∧ y s' = y s + Z.of_nat k * dy s ∧
    (∀ j : nat, (j < k)%nat → cell_ahead s (dx s, dy s) (Z.of_nat j) ≠ top) ∧
    valid_ahead s (dx s, dy s) (Z.of_nat k) = true ∧
    (cell_ahead s (dx s, dy s) (Z.of_nat k) = top ∧ error s' = error s ∨
     cell_ahead s (dx s, dy s) (Z.of_nat k) ≠ top ∧
     valid_ahead s (dx s, dy s) (Z.of_nat k + 1) = false ∧
     error s' = Some (py "jumped out of bounds")).
Proof.
  induction n as [|n IH]; intros s rest top Hv Hs Hn Hd.
  { pose proof (remaining_pos s Hv). lia. }
  assert (cell_ahead s (dx s, dy s) 0 = get s (x s) (y s)) as Hcell0.
  { unfold cell_ahead. simpl. by rewrite !Z.add_0_r. }
  assert (valid_ahead s (dx s, dy s) 0 = true) as Hvalid0.
  { unfold valid_ahead. simpl. by rewrite !Z.add_0_r. }
  cbn [jump_scan]. unfold bind at 1.
  rewrite instruction_spec, (cursor_cell_valid s Hv).
  unfold lift at 1. unfold bind at 1. rewrite (stack_top_snoc _ _ _ Hs).
  destruct (py_eq (get s (x s) (y s)) top) eqn:Heq; cbn [negb].
  { apply py_eq_true in Heq. exists 0%nat, s. unfold ret.
    split; [done|]. split; [simpl; lia|]. split; [simpl; lia|].
    split; [intros j Hj; lia|]. split; [exact Hvalid0|]. left.
    split; [|done]. by rewrite <- Heq. }
  assert (get s (x s) (y s) ≠ top) as Hne.
  { intros E. apply py_eq_true in E. congruence. }
  unfold bind at 1. rewrite _move_eq, Hd.
  destruct (is_valid s (x s + dx s) (y s + dy s)) eqn:Hmove; cbn [negb].
  - set (s1 := with_y (y s + dy s) (with_x (x s + dx s) s)).
    destruct (IH s1 rest top) as (k & s' & Hscan & Hx & Hy & Hbefore & Hvk & Hend);
      [exact Hmove|exact Hs| |exact Hd|].
    { destruct (remaining_move s s1) as (_ & Hlt & _);
        [by rewrite _move_eq, Hd, Hmove|lia]. }
    assert (∀ j : nat, cell_ahead s1 (dx s, dy s) (Z.of_nat j) =
                       cell_ahead s (dx s, dy s) (Z.of_nat (S j))) as Hshift.
    { intros j. unfold cell_ahead. subst s1. attrs.
      rewrite (get_same_code s) by done. f_equal; simpl fst; simpl snd; lia. }
    assert (∀ j : nat, valid_ahead s1 (dx s, dy s) (Z.of_nat j) =
                       valid_ahead s (dx s, dy s) (Z.of_nat (S j))) as Hvshift.
    { intros j. unfold valid_ahead. subst s1. attrs.
      rewrite (is_valid_same_code s) by done.
      f_equal; simpl fst; simpl snd; lia. }
    exists (S k), s'. split; [exact Hscan|].
    change (dx s1) with (dx s) in *. change (dy s1) with (dy s) in *.
    change (x s1) with (x s + dx s) in *. change (y s1) with (y s + dy s) in *.
    change (error s1) with (error s) in *.
    split; [lia|]. split; [lia|]. split.
    { intros [|j] Hj; [by rewrite (Hcell0 : cell_ahead _ _ (Z.of_nat 0) = _)|].
      rewrite <- Hshift.
      apply Hbefore. lia. }
    split; [by rewrite <- Hvshift|].
    rewrite <- Hshift.
    replace (Z.of_nat (S k) + 1) with (Z.of_nat (S (k + 1)))%Z by lia.
    rewrite <- Hvshift.
    replace (Z.of_nat (k + 1)) with (Z.of_nat k + 1) by lia.
    exact Hend.
  - exists 0%nat, (with_error (Some (py "jumped out of bounds"))
                    (with_error (Some (py "moved out of bounds")) s)).
    split; [done|]. split; [simpl; lia|]. split; [simpl; lia|].
    split; [intros j Hj; lia|]. split; [exact Hvalid0|]. right.
    split; [by rewrite (Hcell0 : cell_ahead _ _ (Z.of_nat 0) = _)|].
    split; [|done].
    unfold valid_ahead. simpl. by rewrite !Z.mul_1_l.
Qed.

Lemma jump_with_nearest n s rest top :
  stack s = rest ++ [top] →
  (jump_budget s ≤ n)%nat →
  (dx s =? 0) && (dy s =? 0) = false →
  ∃ (k : nat) s',
    jump_with n s = Ret tt s' ∧
    (dx s', dy s') = (dx s, dy s) ∧
    (x s', y s') = (x s + Z.of_nat k * dx s, y s + Z.of_nat k * dy s) ∧
    (∀ j : nat, (1 ≤ j < k)%nat →
       cell_ahead s (dx s, dy s) (Z.of_nat j) ≠ top) ∧
    ((1 ≤ k)%nat ∧
     valid_ahead s (dx s, dy s) (Z.of_nat k) = true ∧
     cell_ahead s (dx s, dy s) (Z.of_nat k) = top ∧ error s' = error s
     ∨
     ((1 ≤ k)%nat → cell_ahead s (dx s, dy s) (Z.of_nat k) ≠ top) ∧
     valid_ahead s (dx s, dy s) (Z.of_nat k + 1) = false ∧
     error s' = Some (py "jumped out of bounds")).
Proof.
  intros Hs Hn Hd. unfold jump_with. msimpl.
  replace (nonempty (stack s)) with true by (by rewrite Hs, nonempty_snoc).
  cbn [negb]. rewrite _move_eq, Hd.
  destruct (is_valid s (x s + dx s) (y s + dy s)) eqn:Hmove; cbn [negb].
  - set (s1 := with_y (y s + dy s) (with_x (x s + dx s) s)).
    destruct (jump_scan_nearest n s1 rest top)
      as (k & s' & Hscan & Hx & Hy & Hbefore & Hvk & Hend);
      [exact Hmove|exact Hs| |exact Hd|].
    { pose proof (remaining_pos s1 Hmove) as Hr.
      change (jump_budget s1) with (jump_budget s) in Hr. lia. }
    assert (∀ j : nat, cell_ahead s1 (dx s, dy s) (Z.of_nat j) =
                       cell_ahead s (dx s, dy s) (Z.of_nat (S j))) as Hshift.
    { intros j. unfold cell_ahead. subst s1. attrs.
      rewrite (get_same_code s) by done. f_equal; simpl fst; simpl snd; lia. }
    assert (∀ j : nat, valid_ahead s1 (dx s, dy s) (Z.of_nat j) =
                       valid_ahead s (dx s, dy s) (Z.of_nat (S j))) as Hvshift.
    { intros j. unfold valid_ahead. subst s1. attrs.
      rewrite (is_valid_same_code s) by done.
      f_equal; simpl fst; simpl snd; lia. }
    assert (dx s' = dx s ∧ dy s' = dy s) as [Hdx Hdy].
    { destruct (jump_scan_terminates n s1 rest top)
        as (s2 & Hscan2 & _ & _ & ? & ? & _); [exact Hmove|exact Hs| |].
      - pose proof (remaining_pos s1 Hmove) as Hr.
        change (jump_budget s1) with (jump_budget s) in Hr. lia.
      - rewrite Hscan in Hscan2. by injection Hscan2 as <-. }
    exists (S k), s'. split; [exact Hscan|].
    change (dx s1) with (dx s) in *. change (dy s1) with (dy s) in *.
    change (x s1) with (x s + dx s) in *. change (y s1) with (y s + dy s) in *.
    change (error s1) with (error s) in *.
    split; [by rewrite Hdx, Hdy|]. split; [f_equal; lia|]. split.
    { intros [|j] Hj; [lia|]. rewrite <- Hshift. apply Hbefore. lia. }
    rewrite <- Hshift, <- Hvshift.
    replace (Z.of_nat (S k) + 1) with (Z.of_nat (S (k + 1)))%Z by lia.
    rewrite <- Hvshift.
    replace (Z.of_nat (k + 1)) with (Z.of_nat k + 1) by lia.
    destruct Hend as [[? ?]|(? & ? & ?)]; [left|right].
    + split; [lia|]. by split.
    + by split.
  - exists 0%nat, (with_error (Some (py "jumped out of bounds"))
                    (with_error (Some (py "moved out of bounds")) s)).
    split; [done|]. split; [done|]. attrs.
    split; [f_equal; simpl; lia|]. split; [intros j Hj; lia|].
    right. split; [intros Hk; lia|]. split; [|done].
    unfold valid_ahead. simpl. by rewrite !Z.mul_1_l.
Qed.

(** X24: [H], [L], [K], [J] with a non-empty stack: the direction is set and the
    pointer goes to the nearest cell in that direction, at least one cell
    away, that equals the top of the stack; when no cell up to the edge
    does, it stops on the last cell before the edge with the out-of-bounds
    diagnostic. *)
Theorem jump_finds_nearest batch s a d rest top :
  (a, d) ∈ jump_directions →
  stack s = rest ++ [top] →
  ∃ (k : nat) s',
    dispatch batch (lit a) s = Ret tt s' ∧
    (dx s', dy s') = d ∧
    (x s', y s') = (x s + Z.of_nat k * d.1, y s + Z.of_nat k * d.2) ∧
    (∀ j : nat, (1 ≤ j < k)%nat → cell_ahead s d (Z.of_nat j) ≠ top) ∧
    ((1 ≤ k)%nat ∧
     valid_ahead s d (Z.of_nat k) = true ∧
     cell_ahead s d (Z.of_nat k) = top ∧ error s' = error s
     ∨
     ((1 ≤ k)%nat → cell_ahead s d (Z.of_nat k) ≠ top) ∧
     valid_ahead s d (Z.of_nat k + 1) = false ∧
     error s' = Some (py "jumped out of bounds")).
Proof.
  intros Ha Hs. unfold jump_directions in Ha.
  repeat (apply elem_of_cons in Ha as [[= -> ->] | Ha]);
    [..|by apply elem_of_nil in Ha];
    dispatch_eval; unfold _jump; msimpl;
    match goal with
    | |- context [jump_with ?n ?s0] =>
        destruct (jump_with_nearest n s0 rest top)
          as (k & s' & ? & ? & ? & ? & ?); [exact Hs|done|done|]
    end;
    by exists k, s'.
Qed.

Lemma jump_finds_nearest_witness :
  let s := run 3 (init [py "j"; py "lSLq"]) in
  ∃ (k : nat) s',
    dispatch false (lit "L") s = Ret tt s' ∧
    (dx s', dy s') = (1, 0) ∧
    (x s', y s') = (x s + Z.of_nat k * 1, y s + Z.of_nat k * 0).
Proof.
  intros s.
  destruct (jump_finds_nearest false s "L" (1, 0) [] (VInt 32))
    as (k & s' & Hd & Hdir & Hpos & _).
  - apply list_elem_of_further, list_elem_of_here.
  - vm_compute. reflexivity.
  - exists k, s'. split; [exact Hd|]. split; [exact Hdir | exact Hpos].
Defined.

Lemma needs_input_jump b : keeps (λ s, needs_input s = b) _jump.
Proof.
  pose proof (keeps_jump_scan_gen (λ s, needs_input s = b)) as Hscan.
  keeps_go frame.
Qed.

(** X25: After a jump that found its target the step goes on as after any other
    instruction: unless the target is [q], the pointer moves one cell past
    it, so that the target cell itself is not executed. *)
Theorem step_jump_passes_target batch s a rest top s' :
  a ∈ jump_instructions →
  blocked s = Ret false s →
  instruction s = Ret (VInt (ord (lit a))) s →
  stack s = rest ++ [top] →
  dispatch batch (lit a) s = Ret tt s' →
  error s' = error s →
  cursor_cell s' = Ok top ∧
  step batch s =
    Ret tt (if py_eq top (VInt (ord (lit "q"))) then s' else final (_move s')).
Proof.
  intros Ha [Hb _]%blocked_Ret [Hc _]%instruction_Ret Hs Hd He.
  assert (truthy (error s) = false ∧ needs_input s = false) as [Hte Hni].
  { unfold is_blocked in Hb. rewrite Hc in Hb. injection Hb as Hb.
    apply orb_false_iff in Hb as [Hb ?].
    by apply orb_false_iff in Hb as [_ ?]. }
  assert (needs_input s' = false) as Hni'.
  { assert (keeps (λ s, needs_input s = false) (dispatch batch (lit a))) as Hk.
    { pose proof (needs_input_jump false).
      unfold jump_instructions in Ha.
      repeat (apply elem_of_cons in Ha as [-> | Ha]);
        [..|by apply elem_of_nil in Ha];
        dispatch_eval; keeps_go frame. }
    specialize (Hk s Hni). by rewrite Hd in Hk. }
  destruct (dispatch_jump batch a s rest top Ha Hs)
    as (s1 & Hd1 & _ & _ & _ & Hpost).
  rewrite Hd in Hd1. injection Hd1 as <-.
  destruct Hpost as [[Hcell _]|Herr];
    [|rewrite He in Herr; by rewrite Herr in Hte].
  split; [done|].
  rewrite (step_printable _ _ _ Hb Hc).
  2:{ unfold jump_instructions in Ha.
      repeat (apply elem_of_cons in Ha as [-> | Ha]);
        [..|by apply elem_of_nil in Ha]; vm_compute; split; discriminate. }
  unfold bind. rewrite Hd, advance_eq. unfold is_blocked.
  rewrite Hcell, He, Hte, Hni', !orb_false_r.
  by destruct (py_eq top _).
Qed.

Lemma step_jump_passes_target_witness :
  let s := run 3 (init [py "j"; py "lSLq"]) in
  let s' := with_x 4 (with_dy 0 (with_dx 1 s)) in
  cursor_cell s' = Ok (VInt 32) ∧
  step false s = Ret tt (final (_move s')).
Proof.
  intros s s'.
  assert ("L"%char ∈ jump_instructions) as H1
    by apply list_elem_of_further, list_elem_of_here.
  assert (blocked s = Ret false s) as H2 by (vm_compute; reflexivity).
  assert (instruction s = Ret (VInt (ord (lit "L"))) s) as H3
    by (vm_compute; reflexivity).
  assert (stack s = [] ++ [VInt 32]) as H4 by (vm_compute; reflexivity).
  assert (dispatch false (lit "L") s = Ret tt s') as H5
    by (vm_compute; reflexivity).
  assert (error s' = error s) as H6 by (vm_compute; reflexivity).
  destruct (step_jump_passes_target false s "L" [] (VInt 32) s'
              H1 H2 H3 H4 H5 H6) as [Hcell Hstep].
  split; [exact Hcell|].
  change (py_eq (VInt 32) (VInt (ord (lit "q")))) with false in Hstep.
  exact Hstep.
Defined.

(** ** What a step can touch *)

Lemma leads_bind_keeps {A B} (P Q : State → Prop) (m : M A) (f : A → M B) :
  (∀ s, P s → Q s) →
  keeps P m → (∀ a, leads P Q (f a)) → leads P Q (bind m f).
Proof.
  intros HPQ Hm Hf s Hs. rewrite final_bind. specialize (Hm s Hs).
  destruct (m s) as [a s1|e s1|s1]; simpl in Hm; [by apply Hf|by apply HPQ..].
Qed.

Lemma leads_bind_then {A B} (P Q : State → Prop) (m : M A) (f : A → M B) :
  leads P Q m → (∀ a, keeps Q (f a)) → leads P Q (bind m f).
Proof.
  intros Hm Hf s Hs. rewrite final_bind. specialize (Hm s Hs).
  destruct (m s) as [a s1|e s1|s1]; simpl in Hm; [by apply Hf|done..].
Qed.

Lemma leads_keeps_pre {A} (P Q : State → Prop) (m : M A) :
  (∀ s, P s → Q s) → keeps Q m → leads P Q m.
Proof. intros HPQ Hm s Hs. by apply Hm, HPQ. Qed.

Lemma leads_keeps_post {A} (P Q : State → Prop) (m : M A) :
  (∀ s, P s → Q s) → keeps P m → leads P Q m.
Proof. intros HPQ Hm s Hs. by apply HPQ, Hm. Qed.

Lemma leads_if {A} (P Q : State → Prop) (b : bool) (m1 m2 : M A) :
  leads P Q m1 → leads P Q m2 → leads P Q (if b then m1 else m2).
Proof. by destruct b. Qed.

Ltac open_dispatch :=
  first
    [ progress unfold blocked, done, instruction, _get_above, _get_below,
        _print, _delete, _duplicate, _add, _subtract, pop, push, stack_top,
        set_error, _jump, jump_with
    | progress unfold _move, set_direction, _rotate ].

(** X26: A step writes no cell but the one above and the one below the
    pointer: every other cell of the grid reads the same after it. *)
Theorem step_writes_locally batch s a b :
  (a, b) ≠ (x s, y s - 1) →
  (a, b) ≠ (x s, y s + 1) →
  get (final (step batch s)) a b = get s a b.
Proof.
  intros Habove Hbelow.
  set (P := λ s1 : State, get s1 a b = get s a b).
  set (Q := λ s1 : State, get s1 a b = get s a b ∧ x s1 = x s ∧ y s1 = y s).
  assert (∀ s1, Q s1 → P s1) as HQP by (by intros s1 [? _]).
  assert (∀ v o, o = -1 ∨ o = 1 →
    ∀ s1, Q s1 → Q (final (put v (x s1) (y s1 + o) s1))) as Hput.
  { intros v o Ho s1 (Hg & Hx & Hy). unfold Q. rewrite get_put_cell.
    replace (is_valid s1 (x s1) (y s1 + o) && (a =? x s1) &&
             (b =? y s1 + o)) with false.
    - split; [done|].
      unfold put, modify, final. by destruct (is_valid _ _ _).
    - symmetry. rewrite Hx, Hy.
      destruct (decide (a = x s)) as [->|Hne].
      + apply andb_false_iff. right. apply Z.eqb_neq.
        destruct Ho as [-> | ->]; intros ->; [by apply Habove|by apply Hbelow].
      + apply andb_false_iff. left. apply andb_false_iff. right.
        by apply Z.eqb_neq. }
  assert (∀ v, keeps Q (_put_above v)) as Hq_above
    by (intros v s1 Hs1; apply (Hput v (-1)); auto).
  assert (∀ v, keeps Q (_put_below v)) as Hq_below
    by (intros v s1 Hs1; apply (Hput v 1); auto).
  assert (keeps P _move) as Hp_move.
  { intros s1 Hs1. unfold P. rewrite (get_same_code s1); [done|].
    by destruct (_move_frame s1) as [? _]. }
  pose proof (keeps_jump_scan_gen P Hp_move) as Hp_scan.
  assert (keeps P _jump) as Hp_jump by keeps_core open_dispatch frame.
  assert (∀ c, leads Q P (dispatch batch c)) as Hdispatch.
  { intros c. unfold dispatch.
    repeat (apply leads_if;
      [first
         [ apply (leads_keeps_post Q P); [done|];
           clear Hp_move Hp_scan Hp_jump;
           solve [keeps_core open_dispatch frame]
         | apply (leads_keeps_pre Q P); [done|];
           solve [keeps_core open_dispatch frame] ]|]).
    apply (leads_keeps_post Q P); [done|].
    clear Hp_move Hp_scan Hp_jump. keeps_core open_dispatch frame. }
  assert (leads Q P (step batch)) as Hstep.
  { unfold step.
    apply leads_bind_keeps; [done|keeps_core open_dispatch frame|].
    intros blk. apply leads_if; [by intros s1 [? _]|].
    apply leads_bind_keeps; [done|keeps_core open_dispatch frame|].
    intros v. apply leads_bind_keeps; [done|keeps_core open_dispatch frame|].
    intros pr. apply leads_bind_keeps; [done|keeps_core open_dispatch frame|].
    intros _. apply leads_bind_keeps; [done|keeps_core open_dispatch frame|].
    intros c. apply leads_bind_then; [apply Hdispatch|].
    intros _. keeps_core open_dispatch frame. }
  by apply Hstep.
Qed.

Lemma step_writes_locally_witness :
  let s := run 3 (init [py "j !"; py "lSF"]) in
  get (final (step false s)) 0 0 = get s 0 0.
Proof.
  intros s. apply step_writes_locally.
  - intros H. vm_compute in H. discriminate H.
  - intros H. vm_compute in H. discriminate H.
Defined.

(** ** The constructed grid *)

(** X27: The constructor lays the source out row by row: a cell within
    [COLUMNS] columns and within the lines holds the code of the character
    there, or a space past the end of its line; characters beyond column
    [COLUMNS] are dropped, and every other coordinate is off the grid. *)
Theorem init_cells lines a b :
  get (init lines) a b =
    if (0 <=? b) && (b <? len lines) && ((0 <=? a) && (a <? COLUMNS))
    then match lines !! Z.to_nat b ≫= (.!! Z.to_nat a) with
         | Some c => VInt (ord c)
         | None => VInt (ord (lit " "))
         end
    else VNone.
Proof.
  unfold get, is_valid, len. cbn [init code].
  rewrite length_fmap, list_lookup_fmap.
  destruct ((0 <=? b) && (b <? Z.of_nat (length lines))) eqn:Hb; [|done].
  apply andb_true_iff in Hb as [Hb1%Z.leb_le Hb2%Z.ltb_lt].
  destruct (lookup_lt_is_Some_2 lines (Z.to_nat b)) as [line Hline]; [lia|].
  rewrite Hline. cbn [fmap option_fmap option_map andb mbind option_bind].
  fold (len (init_row line)). rewrite init_row_length.
  destruct ((0 <=? a) && (a <? COLUMNS)) eqn:Ha; [|done].
  apply andb_true_iff in Ha as [Ha1%Z.leb_le Ha2%Z.ltb_lt].
  unfold init_row. rewrite list_lookup_fmap, lookup_seq_lt by lia.
  simpl. by destruct (line !! Z.to_nat a).
Qed.

(** ** What a step takes from the queue *)

(** X28: A step takes at most one code off the input queue, from its front,
    and never adds to it. *)
Theorem step_consumes_front batch s :
  stdin (final (step batch s)) = stdin s ∨
  ∃ v, stdin s = v :: stdin (final (step batch s)).
Proof.
  set (P := λ s1 : State, stdin s1 = stdin s).
  set (Q := λ s1 : State,
    stdin s1 = stdin s ∨ ∃ v, stdin s = v :: stdin s1).
  assert (∀ s1, P s1 → Q s1) as HPQ by (by left).
  assert (∀ put_there : value → M unit, (∀ v, keeps Q (put_there v)) →
    leads P Q (q ← gets stdin;
               match q with
               | v :: q' => modify (with_stdin q');; put_there v
               | [] => modify (with_needs_input true)
               end)) as Hinput.
  { intros put_there Hput s1 Hs1. unfold bind at 1, gets.
    destruct (stdin s1) as [|v q'] eqn:Hq; [by left|].
    rewrite final_bind. unfold modify. apply Hput. right. exists v.
    attrs. by rewrite <- Hs1. }
  assert (∀ v, keeps Q (_put_above v)) as Hq_above
    by (intros v; keeps_go frame).
  assert (∀ v, keeps Q (_put_below v)) as Hq_below
    by (intros v; keeps_go frame).
  assert (∀ c, leads P Q (dispatch batch c)) as Hdispatch.
  { intros c. unfold dispatch.
    pose proof (keeps_jump_scan_gen P) as Hscan.
    repeat (apply leads_if;
      [first
         [ solve [by apply Hinput]
         | apply (leads_keeps_post P Q); [done|];
           solve [keeps_go frame] ]|]).
    apply (leads_keeps_post P Q); [done|]. keeps_go frame. }
  assert (keeps Q _move) as Hq_move by keeps_go frame.
  assert (leads P Q (step batch)) as Hstep.
  { unfold step.
    apply leads_bind_keeps; [done|keeps_go frame|].
    intros blk. apply leads_if; [by left|].
    apply leads_bind_keeps; [done|keeps_go frame|].
    intros v. apply leads_bind_keeps; [done|keeps_go frame|].
    intros pr. apply leads_bind_keeps; [done|keeps_go frame|].
    intros _. apply leads_bind_keeps; [done|keeps_go frame|].
    intros c. apply leads_bind_then; [apply Hdispatch|].
    intros _. keeps_go frame. }
  by apply Hstep.
Qed.
